(** * sconfig: the configuration-file parser vendored by transip-dynamic

    A shallow embedding of package [sconfig] ([readFile], [removeComments],
    [collapseWhitespace], [Parse], [fmterr], [fieldNameFromKey],
    [setFromHandler], [setFromTypeHandler], [RegisterType], [OneValue] and
    [NValues]) together with the properties its specification states.

    Modelling conventions.
    - A Go [string] is a [string] of bytes, and a rune is its code point.
      Where Go goes through a string rune by rune ([range],
      [strings.TrimSpace]) the model decodes UTF-8 as package [utf8] does,
      a byte that starts no valid encoding being the rune U+FFFD of width
      one, and [unicode.IsSpace] is the one of Unicode.  Statements that
      are about ASCII text only say so.
    - A Go function result [(v, err)] is an [outcome]: [Ok v], [Err msg]
      (a non-nil [error] with its message), or [Panic] for a run-time panic
      (index out of range, reflect's refusals).  [OutOfFuel] only marks that
      the bound the model puts on a loop or on the nesting of [source]
      directives was reached; [removeComments] never reaches it, and a
      result of [readFile] that was reached stays the same with more fuel.
    - [error] values are their messages, built as [fmt.Errorf] and
      [errors.New] build them.
    - The process-wide [typeHandlers] table is passed explicitly.  The
      destination struct is its field names with the names of their types,
      which [Parse] cannot change, and a store of the fields' values, which
      converters and custom handlers change.
    - A file is the bytes [os.Open] gives access to; [bufio.Scanner] splits
      them into lines and stops at a line that does not fit its buffer of
      64 KiB, which [readFile] takes for the end of the file. *)

From Stdlib Require Import String Ascii List ZArith Lia Bool DecimalString.
From stdpp Require Import base option list gmap strings.

Local Open Scope string_scope.
Local Open Scope list_scope.

(** String concatenation reduces on a constructor, as list concatenation does. *)
#[local] Arguments String.append !_ _ / : simpl nomatch.

(** ** Results of Go calls *)

Inductive outcome (A : Type) : Type :=
| Ok (a : A)
| Err (e : string)
| Panic
| OutOfFuel.
Arguments Ok {A} a.
Arguments Err {A} e.
Arguments Panic {A}.
Arguments OutOfFuel {A}.

Definition obind {A B : Type} (m : outcome A) (k : A -> outcome B) : outcome B :=
  match m with
  | Ok a => k a
  | Err e => Err e
  | Panic => Panic
  | OutOfFuel => OutOfFuel
  end.

Notation "'do' x <- m ; k" := (obind m (fun x => k))
  (at level 10, x name, m at level 100, k at level 200).

(** ** String operations of the Go runtime and of [strings], [unicode], [utf8]
    and [bufio] *)

Module GoString.

(** The bytes are written by their codes where a literal would be unreadable. *)
Definition backslash : ascii := ascii_of_nat 92.
Definition hash : ascii := ascii_of_nat 35.
Definition space : ascii := ascii_of_nat 32.
Definition newline : ascii := ascii_of_nat 10.
Definition carriage_return : ascii := ascii_of_nat 13.

(** A rune is its code point; [RuneError] is U+FFFD. *)
Definition RuneError : N := 65533%N.

(** [unicode.IsSpace]: in Latin-1 the runes ['\t'], ['\n'], ['\v'], ['\f'],
    ['\r'], [' '], U+0085 and U+00A0; above it the runes of the Unicode
    property White_Space. *)
Definition IsSpaceRune (r : N) : bool :=
  (if r <=? 255 then
     (9 <=? r) && (r <=? 13) || (r =? 32) || (r =? 133) || (r =? 160)
   else
     (r =? 5760) || (8192 <=? r) && (r <=? 8202) || (r =? 8232) || (r =? 8233)
     || (r =? 8239) || (r =? 8287) || (r =? 12288))%N.

(** [unicode.IsSpace(rune(b))] for a byte [b]. *)
Definition IsSpace (c : ascii) : bool := IsSpaceRune (N_of_ascii c).

(** Whether the byte [c] lies in [lo, hi]. *)
Definition byte_in (lo hi : N) (c : ascii) : bool :=
  ((lo <=? N_of_ascii c) && (N_of_ascii c <=? hi))%N.

(** The six low bits of a continuation byte. *)
Definition low6 (c : ascii) : N := N.land (N_of_ascii c) 63.

(** [utf8.DecodeRuneInString]: the rune at the start of [s] and its width in
    bytes; [RuneError] with width 1 for bytes that start no valid encoding,
    width 0 for the empty string.  The second byte of an encoding has the
    range its first byte asks for, the others [0x80, 0xBF]. *)
Definition DecodeRune (s : string) : N * nat :=
  match s with
  | EmptyString => (RuneError, 0)
  | String c0 s1 =>
      let b0 := N_of_ascii c0 in
      if (b0 <? 128)%N then (b0, 1)
      else if byte_in 194 223 c0 then
        match s1 with
        | String c1 _ =>
            if byte_in 128 191 c1
            then (N.lor (N.shiftl (N.land b0 31) 6) (low6 c1), 2)
            else (RuneError, 1)
        | _ => (RuneError, 1)
        end
      else if byte_in 224 239 c0 then
        let lo := if (b0 =? 224)%N then 160%N else 128%N in
        let hi := if (b0 =? 237)%N then 159%N else 191%N in
        match s1 with
        | String c1 (String c2 _) =>
            if byte_in lo hi c1 && byte_in 128 191 c2
            then (N.lor (N.shiftl (N.land b0 15) 12)
                    (N.lor (N.shiftl (low6 c1) 6) (low6 c2)), 3)
            else (RuneError, 1)
        | _ => (RuneError, 1)
        end
      else if byte_in 240 244 c0 then
        let lo := if (b0 =? 240)%N then 144%N else 128%N in
        let hi := if (b0 =? 244)%N then 143%N else 191%N in
        match s1 with
        | String c1 (String c2 (String c3 _)) =>
            if byte_in lo hi c1 && byte_in 128 191 c2 && byte_in 128 191 c3
            then (N.lor (N.shiftl (N.land b0 7) 18)
                    (N.lor (N.shiftl (low6 c1) 12)
                       (N.lor (N.shiftl (low6 c2) 6) (low6 c3))), 4)
            else (RuneError, 1)
        | _ => (RuneError, 1)
        end
      else (RuneError, 1)
  end.

(** A continuation byte with the six bits [n]. *)
Definition cont_byte (n : N) : ascii := ascii_of_N (N.lor 128 (N.land n 63)).

(** [string(r)] for a rune [r]: its UTF-8 encoding, that of U+FFFD for a
    surrogate or a value past U+10FFFF. *)
Definition EncodeRune (r : N) : string :=
  (if r <=? 127 then String (ascii_of_N r) EmptyString
   else if r <=? 2047 then
     String (ascii_of_N (N.lor 192 (N.shiftr r 6)))
       (String (cont_byte r) EmptyString)
   else if (1114111 <? r) || (55296 <=? r) && (r <=? 57343) then
     String (ascii_of_N 239) (String (ascii_of_N 191)
       (String (ascii_of_N 189) EmptyString))
   else if r <=? 65535 then
     String (ascii_of_N (N.lor 224 (N.shiftr r 12)))
       (String (cont_byte (N.shiftr r 6)) (String (cont_byte r) EmptyString))
   else
     String (ascii_of_N (N.lor 240 (N.shiftr r 18)))
       (String (cont_byte (N.shiftr r 12))
          (String (cont_byte (N.shiftr r 6))
             (String (cont_byte r) EmptyString))))%N.

(** [s[:n]] *)
Fixpoint take (n : nat) (s : string) : string :=
  match n, s with
  | S n', String c s' => String c (take n' s')
  | _, _ => EmptyString
  end.

(** [s[n:]] *)
Fixpoint drop (n : nat) (s : string) : string :=
  match n, s with
  | S n', String _ s' => drop n' s'
  | _, _ => s
  end.

(** [strings.Index(s, string(c))] for a one-byte pattern; [None] is Go's -1. *)
Fixpoint IndexByte (c : ascii) (s : string) : option nat :=
  match s with
  | EmptyString => None
  | String d s' =>
      if Ascii.eqb d c then Some 0 else option_map S (IndexByte c s')
  end.

(** [strings.HasPrefix(s, p)] *)
Fixpoint HasPrefix (s p : string) {struct p} : bool :=
  match p, s with
  | EmptyString, _ => true
  | String a p', String b s' => Ascii.eqb a b && HasPrefix s' p'
  | String _ _, EmptyString => false
  end.

Fixpoint dropWhile (f : ascii -> bool) (s : string) : string :=
  match s with
  | EmptyString => EmptyString
  | String c s' => if f c then dropWhile f s' else s
  end.

(** Drops the longest suffix whose bytes all satisfy [f]. *)
Fixpoint dropWhileEnd (f : ascii -> bool) (s : string) : string :=
  match s with
  | EmptyString => EmptyString
  | String c s' =>
      match dropWhileEnd f s' with
      | EmptyString => if f c then EmptyString else String c EmptyString
      | t => String c t
      end
  end.

(** [utf8.RuneStart]: the byte is not a continuation byte. *)
Definition RuneStart (c : ascii) : bool :=
  negb (N.land (N_of_ascii c) 192 =? 128)%N.

(** The search of [utf8.DecodeLastRuneInString] for the start of the last
    rune: from [start] downwards, not below [lim]. *)
Fixpoint find_RuneStart (fuel : nat) (s : string) (start lim : Z) : Z :=
  match fuel with
  | O => start
  | S fuel' =>
      if (start <? lim)%Z then start
      else
        match String.get (Z.to_nat start) s with
        | Some c =>
            if RuneStart c then start
            else find_RuneStart fuel' s (start - 1) lim
        | None => start
        end
  end.

(** [utf8.DecodeLastRuneInString]: the rune at the end of [s] and its
    width; [RuneError] with width 1 when the last bytes are no valid
    encoding. *)
Definition DecodeLastRune (s : string) : N * nat :=
  match String.length s with
  | O => (RuneError, 0)
  | S last =>
      match String.get last s with
      | None => (RuneError, 0)
      | Some c =>
          if (N_of_ascii c <? 128)%N then (N_of_ascii c, 1)
          else
            let end_ := Z.of_nat (S last) in
            let lim := Z.max 0 (end_ - 4) in
            let start := find_RuneStart 4 s (Z.of_nat last - 1) lim in
            let start := Z.to_nat (Z.max 0 start) in
            let (r, size) := DecodeRune (drop start s) in
            if Nat.eqb (start + size) (S last) then (r, size)
            else (RuneError, 1)
      end
  end.

(** [strings.TrimLeftFunc(s, unicode.IsSpace)]: the runes are decoded from
    the start; [fuel] bounds their number. *)
Fixpoint TrimLeftSpace (fuel : nat) (s : string) : string :=
  match fuel with
  | O => s
  | S fuel' =>
      match s with
      | EmptyString => EmptyString
      | String _ _ =>
          let (r, width) := DecodeRune s in
          if IsSpaceRune r then TrimLeftSpace fuel' (drop width s) else s
      end
  end.

(** [strings.TrimRightFunc(s, unicode.IsSpace)]: the runes are decoded from
    the end. *)
Fixpoint TrimRightSpace (fuel : nat) (s : string) : string :=
  match fuel with
  | O => s
  | S fuel' =>
      match s with
      | EmptyString => EmptyString
      | String _ _ =>
          let (r, width) := DecodeLastRune s in
          if IsSpaceRune r
          then TrimRightSpace fuel' (take (String.length s - width) s)
          else s
      end
  end.

(** [strings.TrimSpace]: leading and trailing white space, as Unicode
    defines it, removed. *)
Definition TrimSpace (s : string) : string :=
  let s := TrimLeftSpace (String.length s) s in
  TrimRightSpace (String.length s) s.

(** [strings.ToUpper] on ASCII letters. *)
Definition upper_byte (c : ascii) : ascii :=
  let n := nat_of_ascii c in
  if Nat.leb 97 n && Nat.leb n 122 then ascii_of_nat (n - 32) else c.

Fixpoint ToUpper (s : string) : string :=
  match s with
  | EmptyString => EmptyString
  | String c s' => String (upper_byte c) (ToUpper s')
  end.

(** [strings.Replace(s, old, new, -1)] for a non-empty [old]: every
    non-overlapping occurrence, leftmost first. *)
Fixpoint replace_go (fuel : nat) (s old new : string) : string :=
  match fuel with
  | O => s
  | S fuel' =>
      match s with
      | EmptyString => EmptyString
      | String c s' =>
          if HasPrefix s old
          then new +:+ replace_go fuel' (drop (String.length old) s) old new
          else String c (replace_go fuel' s' old new)
      end
  end.

Definition Replace (s old new : string) : string :=
  replace_go (String.length s) s old new.

(** [strings.Split(s, " ")]: the fields between single separator bytes;
    never an empty list. *)
Fixpoint split_go (sep : ascii) (cur s : string) : list string :=
  match s with
  | EmptyString => [cur]
  | String c s' =>
      if Ascii.eqb c sep then cur :: split_go sep EmptyString s'
      else split_go sep (cur +:+ String c EmptyString) s'
  end.

Definition Split (s : string) (sep : ascii) : list string :=
  split_go sep EmptyString s.

(** [fmt.Sprintf("%d", n)] and ["%v"] of an [int]. *)
Definition itoa (z : Z) : string := NilZero.string_of_int (Z.to_int z).

(** [bufio.MaxScanTokenSize]: the size of the scanner's buffer. *)
Definition MaxScanTokenSize : Z := 65536.

(** [bufio.ScanLines] over a whole file, as [bufio.Scanner] runs it: the
    lines without their end-of-line marker (a trailing carriage return is
    dropped too); an unterminated last line counts, an empty one does not.
    A line must fit the buffer together with its newline (an unterminated
    last line with one byte to spare); at a longer one the scanner stops
    with an error that [readFile] does not look at, so the lines before it
    are all there is. *)
Fixpoint dropCR (s : string) : string :=
  match s with
  | EmptyString => EmptyString
  | String c EmptyString =>
      if Ascii.eqb c carriage_return then EmptyString else s
  | String c s' => String c (dropCR s')
  end.

Definition fits_buffer (line : string) : bool :=
  (Z.of_nat (String.length line) <? MaxScanTokenSize)%Z.

Fixpoint scan_go (cur s : string) : list string :=
  match s with
  | EmptyString =>
      match cur with
      | EmptyString => []
      | _ => if fits_buffer cur then [dropCR cur] else []
      end
  | String c s' =>
      if Ascii.eqb c newline then
        if fits_buffer cur then dropCR cur :: scan_go EmptyString s' else []
      else scan_go (cur +:+ String c EmptyString) s'
  end.

Definition ScanLines (content : string) : list string :=
  scan_go EmptyString content.

End GoString.

(** ** The Line Reader *)

Import GoString.

(** [line[i-1]]: a panic at [i = 0] (index -1) and past the end. *)
Definition byte_before (line : string) (i : nat) : outcome ascii :=
  match i with
  | O => Panic
  | S j =>
      match String.get j line with
      | Some c => Ok c
      | None => Panic
      end
  end.

(** The loop of [removeComments] with its two variables [line] and
    [prevcmt]; one unit of [fuel] per iteration.  [cmt] comes from
    [strings.Index], so the slices [line[prevcmt:]], [line[:cmt-1]] and
    [line[cmt:]] are within bounds; only [line[cmt-1]] can be out of range,
    at [cmt = 0]. *)
Fixpoint removeComments_loop (fuel : nat) (line : string) (prevcmt : nat)
  : outcome string :=
  match fuel with
  | O => OutOfFuel
  | S fuel' =>
      match IndexByte hash (drop prevcmt line) with
      | None => Ok line
      | Some k =>
          let cmt := k + prevcmt in
          do p <- byte_before line cmt;
          if Ascii.eqb p backslash
          then removeComments_loop fuel' (take (cmt - 1) line +:+ drop cmt line) cmt
          else Ok (take cmt line)
      end
  end.

Definition removeComments (line : string) : outcome string :=
  removeComments_loop (S (String.length line)) line 0.

(** The [for i, char := range line] loop of [collapseWhitespace].  The loop
    goes from rune to rune: [rest] is [line[i:]], and [skip] counts the bytes
    of the current rune that are still to be passed; at [skip = 0] the rune
    [char] starts at index [i]. *)
Fixpoint collapseWhitespace_loop (line : string) (i : nat) (rest : string)
    (skip : nat) (nl : string) (prevSpace : bool) : outcome string :=
  match rest with
  | EmptyString => Ok nl
  | String _ rest' =>
      match skip with
      | S skip' => collapseWhitespace_loop line (S i) rest' skip' nl prevSpace
      | O =>
          let (char, width) := DecodeRune rest in
          if (char =? 92)%N then
            do p <- byte_before line i;
            collapseWhitespace_loop line (S i) rest' (width - 1)
              (if Ascii.eqb p backslash
               then nl +:+ String backslash EmptyString else nl)
              prevSpace
          else if IsSpaceRune char then
            if prevSpace then
              do p <- byte_before line i;
              collapseWhitespace_loop line (S i) rest' (width - 1)
                (if Ascii.eqb p backslash then nl +:+ EncodeRune char else nl)
                prevSpace
            else
              collapseWhitespace_loop line (S i) rest' (width - 1)
                (if Nat.eqb i (String.length line - 1) then nl else nl +:+ " ")
                true
          else
            collapseWhitespace_loop line (S i) rest' (width - 1)
              (nl +:+ EncodeRune char) false
      end
  end.

Definition collapseWhitespace (line : string) : outcome string :=
  collapseWhitespace_loop line 0 line 0 EmptyString false.

(** What [os.Open] gives for a path: the file's bytes or the error. *)
Inductive opened : Type :=
| OpenOk (content : string)
| OpenErr (e : string).

Definition filesystem : Type := string -> opened.

(** A logical line is Go's [[]string{no, text}]. *)
Abbreviation LogicalLine := (string * string)%type.

(** The variables of [readFile]'s scanner loop: [lines], [i] and [no]. *)
Definition loop_state : Type := (list LogicalLine * nat * nat)%type.

(** One iteration of the scanner loop of [readFile] on the physical line
    [raw].  [sourced] is the recursive call [readFile(line[7:])]. *)
Definition readFile_step (sourced : string -> outcome (list LogicalLine))
    (raw : string) (st : loop_state) : outcome loop_state :=
  let '(lines, i, no) := st in
  let no := S no in
  let isIndented :=
    match raw with
    | String c _ => IsSpace c
    | EmptyString => false
    end in
  let line := TrimSpace raw in
  if (String.eqb line EmptyString || HasPrefix line "#")%bool
  then Ok (lines, i, no)
  else
    do line <- (do l <- removeComments line; collapseWhitespace l);
    if isIndented then
      if Nat.eqb i 0 then Err "first line can't be indented"
      else
        match lines !! (i - 1) with
        | None => Panic
        | Some (n, t) => Ok (<[i - 1 := (n, t +:+ " " +:+ line)]> lines, i, no)
        end
    else if HasPrefix line "source " then
      do more <- sourced (drop 7 line);
      Ok (lines ++ more, S i, no)
    else
      Ok (lines ++ [(itoa (Z.of_nat no), line)], S i, no).

(** The scanner loop over the physical lines still to read. *)
Fixpoint readFile_loop (sourced : string -> outcome (list LogicalLine))
    (input : list string) (st : loop_state) : outcome loop_state :=
  match input with
  | [] => Ok st
  | raw :: input' =>
      do st' <- readFile_step sourced raw st;
      readFile_loop sourced input' st'
  end.

(** [readFile]; [fuel] bounds the nesting of [source] directives. *)
Fixpoint readFile (fs : filesystem) (fuel : nat) (file : string)
  : outcome (list LogicalLine) :=
  match fuel with
  | O => OutOfFuel
  | S fuel' =>
      match fs file with
      | OpenErr e => Err e
      | OpenOk content =>
          do st <- readFile_loop (readFile fs fuel') (ScanLines content) ([], 0, 0);
          Ok (st.1.1)
      end
  end.

(** ** Values, the destination struct and the two handler tables *)

(** What an [interface{}] returned by a converter can hold: nothing, the token
    slice itself (what [OneValue] and [NValues] return), a string, or a value
    of some other type given by the name [reflect] prints for it. *)
Inductive Value : Type :=
| VNil
| VStrings (v : list string)
| VString (s : string)
| VOther (type_name : string) (repr : string).

(** [type TypeHandler func([]string) (interface{}, error)] *)
Definition TypeHandler : Type := list string -> outcome Value.

(** The values of the destination struct's fields, by field name. *)
Abbreviation store := (gmap string Value).

(** [type Handlers map[string]func([]string) error]; a handler sets fields of
    the destination itself, so it takes and returns the [store].  [None] is
    the nil map. *)
Definition Handler : Type := list string -> store -> store * outcome unit.
Abbreviation Handlers := (option (gmap string Handler)).

(** [OneValue] *)
Definition OneValue : TypeHandler := fun v =>
  if negb (Nat.eqb (length v) 1) then Err "must have exactly one value"
  else Ok (VStrings v).

(** [NValues]; [min] and [max] are Go [int]s. *)
Definition NValues (min max : Z) : TypeHandler := fun v =>
  let len := Z.of_nat (length v) in
  if ((0 <? min) && (len <? min))%Z then
    Err ("must have more than " +:+ itoa min +:+ " values (has: " +:+ itoa len +:+ ")")
  else if ((0 <? max) && (max <? len))%Z then
    Err ("must have fewer than " +:+ itoa max +:+ " values (has: " +:+ itoa len +:+ ")")
  else Ok (VStrings v).

(** [fmterr] *)
Definition fmterr (file line key err : string) : string :=
  file +:+ " line " +:+ line +:+ ": error parsing " +:+ key +:+ ": " +:+ err.

(** The acronym list of [fieldNameFromKey], in its order. *)
Definition acr : list string :=
  ["Api"; "Ascii"; "Cpu"; "Css"; "Dns"; "Eof"; "Guid"; "Html";
   "Https"; "Http"; "Id"; "Ip"; "Json"; "Lhs"; "Qps"; "Ram"; "Rhs";
   "Rpc"; "Sla"; "Smtp"; "Sql"; "Ssh"; "Tcp"; "Tls"; "Ttl"; "Udp";
   "Ui"; "Uid"; "Uuid"; "Uri"; "Url"; "Utf8"; "Vm"; "Xml"; "Xsrf";
   "Xss"].

(** [setFromHandler] *)
Definition setFromHandler (fieldName : string) (values : list string)
    (handlers : Handlers) (st : store) : store * (bool * outcome unit) :=
  match handlers with
  | None => (st, (false, Ok tt))
  | Some m =>
      match (m !! fieldName : option Handler) with
      | None => (st, (false, Ok tt))
      | Some handler =>
          match handler values st with
          | (st', Err e) => (st', (true, Err (e +:+ " (from handler)")))
          | (st', r) => (st', (true, r))
          end
      end
  end.

(** The [for _, h := range handler] loop of [setFromTypeHandler]: every [h]
    is called on [value]; [v] is the variable the results are stored in. *)
Fixpoint typeHandler_loop (handler : list TypeHandler) (value : list string)
    (v : Value) : outcome Value :=
  match handler with
  | [] => Ok v
  | h :: handler' => do v' <- h value; typeHandler_loop handler' value v'
  end.

Section Sconfig.

(** The two functions of package [inflect] that [fieldNameFromKey] calls
    (the package is not part of the repository). *)
Variable Camelize : string -> string.
Variable Pluralize : string -> string.

(** Whether [reflect]'s [Value.Set] accepts a value for a field of the
    type with the given name; it panics otherwise. *)
Variable assignable : Value -> string -> bool.

(** The destination's struct type: field name to the name of its type
    ([field.Type().String()]). *)
Variable fields : gmap string string.

(** The registry [typeHandlers]. *)
Variable typeHandlers : gmap string (list TypeHandler).

(** The name after camel-casing and the acronym replacements. *)
Definition acronymize (key : string) : string :=
  fold_left (fun fieldName a => Replace fieldName a (ToUpper a)) acr (Camelize key).

(** [fieldNameFromKey]; a field can be addressed exactly when the struct
    has it. *)
Definition fieldNameFromKey (key : string) : outcome string :=
  let fieldName := acronymize key in
  match fields !! fieldName with
  | Some _ => Ok fieldName
  | None =>
      let fieldNamePlural := Pluralize fieldName in
      match fields !! fieldNamePlural with
      | Some _ => Ok fieldNamePlural
      | None =>
          Err ("unknown option (field " +:+ fieldName +:+ " or "
               +:+ fieldNamePlural +:+ " is missing)")
      end
  end.

(** [setFromTypeHandler] for the field [fieldName] of type [T]. *)
Definition setFromTypeHandler (fieldName T : string) (value : list string)
    (st : store) : store * (bool * outcome unit) :=
  match typeHandlers !! T with
  | None => (st, (false, Ok tt))
  | Some handler =>
      match typeHandler_loop handler value VNil with
      | Ok v =>
          if assignable v T then (<[fieldName := v]> st, (true, Ok tt))
          else (st, (true, Panic))
      | Err e => (st, (true, Err e))
      | Panic => (st, (true, Panic))
      | OutOfFuel => (st, (true, OutOfFuel))
      end
  end.

(** The [for _, line := range lines] loop of [Parse]. *)
Fixpoint Parse_loop (file : string) (handlers : Handlers)
    (lines : list LogicalLine) (st : store) : store * outcome unit :=
  match lines with
  | [] => (st, Ok tt)
  | (no, text) :: lines' =>
      let v := Split text space in
      let key := hd EmptyString v in
      match fieldNameFromKey key with
      | Err e => (st, Err (fmterr file no key e))
      | Panic => (st, Panic)
      | OutOfFuel => (st, OutOfFuel)
      | Ok fieldName =>
          match fields !! fieldName with
          | None => (st, Panic)
          | Some T =>
              match setFromHandler fieldName (tl v) handlers st with
              | (st1, (true, Ok _)) => Parse_loop file handlers lines' st1
              | (st1, (true, Err e)) => (st1, Err (fmterr file no key e))
              | (st1, (true, r)) => (st1, r)
              | (st1, (false, _)) =>
                  match setFromTypeHandler fieldName T (tl v) st1 with
                  | (st2, (true, Ok _)) => Parse_loop file handlers lines' st2
                  | (st2, (true, Err e)) => (st2, Err (fmterr file no key e))
                  | (st2, (true, r)) => (st2, r)
                  | (st2, (false, _)) =>
                      (st2, Err (fmterr file no key
                         ("don't know how to set fields of the type " +:+ T)))
                  end
              end
          end
      end
  end.

(** [Parse] *)
Definition Parse (fs : filesystem) (fuel : nat) (file : string)
    (handlers : Handlers) (st : store) : store * outcome unit :=
  match readFile fs fuel file with
  | Ok lines => Parse_loop file handlers lines st
  | Err e => (st, Err e)
  | Panic => (st, Panic)
  | OutOfFuel => (st, OutOfFuel)
  end.

End Sconfig.

(** ** The functions of package [inflect] and of [reflect] used in examples *)

Definition is_spacer (c : ascii) : bool :=
  Ascii.eqb c "_" || Ascii.eqb c " " || Ascii.eqb c "-".

Fixpoint camelize_go (capitalize : bool) (s : string) : string :=
  match s with
  | EmptyString => EmptyString
  | String c s' =>
      if is_spacer c then camelize_go true s'
      else String (if capitalize then upper_byte c else c) (camelize_go false s')
  end.

(** Modelled from the spec: [inflect.Camelize] (package
    bitbucket.org/pkg/inflect is not under src/): hyphen, underscore or space
    separated tokens are concatenated, each token capitalized. *)
Definition Camelize_model (key : string) : string := camelize_go true key.

Fixpoint ends_with_s (s : string) : bool :=
  match s with
  | EmptyString => false
  | String c EmptyString => Ascii.eqb c "s"
  | String _ s' => ends_with_s s'
  end.

(** Modelled from the spec: [inflect.Pluralize] (package
    bitbucket.org/pkg/inflect is not under src/): the regular English plural,
    a final s added unless the word is empty or already ends in one. *)
Definition Pluralize_model (word : string) : string :=
  if (String.eqb word EmptyString || ends_with_s word)%bool then word
  else word +:+ "s".

(** The type name [reflect] prints for a value; the nil interface has none. *)
Definition type_of (v : Value) : option string :=
  match v with
  | VNil => None
  | VStrings _ => Some "[]string"
  | VString _ => Some "string"
  | VOther T _ => Some T
  end.

(** Assignability between identical types: what [Value.Set] accepts when the
    field's type is not an interface. *)
Definition identical_type (v : Value) (T : string) : bool :=
  match type_of v with
  | Some T' => String.eqb T' T
  | None => false
  end.

(** [RegisterType] *)
Definition RegisterType (typeName : string) (fun_ : list TypeHandler)
    (typeHandlers : gmap string (list TypeHandler))
  : gmap string (list TypeHandler) :=
  <[typeName := fun_]> typeHandlers.

(** ** Reference definitions that follow the documentation's words *)

(** The tokens a converter's result can hand to the next converter. *)
Definition tokens_of (v : Value) : option (list string) :=
  match v with
  | VStrings l => Some l
  | _ => None
  end.

(** The chain as the comment on [RegisterType] documents it: the handlers
    "are run in order, each passing the output to the next unless there is an
    error". *)
Fixpoint chain_documented (handler : list TypeHandler) (value : list string)
    (v : Value) : outcome Value :=
  match handler with
  | [] => Ok v
  | h :: handler' =>
      do v' <- h value;
      match handler', tokens_of v' with
      | [], _ => Ok v'
      | _, Some value' => chain_documented handler' value' v'
      | _, None => Panic
      end
  end.

(** Comment removal in the specification's words: scan for the first
    unescaped [#]; a backslash followed by [#] is a literal [#] and does not
    start a comment; everything from an unescaped [#] on is discarded. *)
Fixpoint strip_comment_spec (s : string) : string :=
  match s with
  | EmptyString => EmptyString
  | String c s' =>
      if Ascii.eqb c hash then EmptyString
      else if Ascii.eqb c backslash then
        match s' with
        | String d s'' =>
            if Ascii.eqb d hash then String hash (strip_comment_spec s'')
            else String c (strip_comment_spec s')
        | EmptyString => String c EmptyString
        end
      else String c (strip_comment_spec s')
  end.

(** The bytes of a line other than white space and backslashes, in order. *)
Fixpoint visible (s : string) : string :=
  match s with
  | EmptyString => EmptyString
  | String c s' =>
      if (IsSpace c || Ascii.eqb c backslash)%bool then visible s'
      else String c (visible s')
  end.

(** Whether the byte [c] occurs in [s]. *)
Fixpoint has_byte (c : ascii) (s : string) : bool :=
  match s with
  | EmptyString => false
  | String d s' => (Ascii.eqb d c || has_byte c s')%bool
  end.

(** Whether every byte of [s] is an ASCII byte. *)
Fixpoint is_ascii (s : string) : bool :=
  match s with
  | EmptyString => true
  | String c s' => ((N_of_ascii c <? 128)%N && is_ascii s')%bool
  end.

(** The loop of [collapseWhitespace] as it runs on ASCII text, where every
    rune is one byte. *)
Fixpoint collapseWhitespace_ascii_loop (line : string) (i : nat) (rest : string)
    (nl : string) (prevSpace : bool) : outcome string :=
  match rest with
  | EmptyString => Ok nl
  | String char rest' =>
      if Ascii.eqb char backslash then
        do p <- byte_before line i;
        collapseWhitespace_ascii_loop line (S i) rest'
          (if Ascii.eqb p backslash then nl +:+ String backslash EmptyString else nl)
          prevSpace
      else if IsSpace char then
        if prevSpace then
          do p <- byte_before line i;
          collapseWhitespace_ascii_loop line (S i) rest'
            (if Ascii.eqb p backslash then nl +:+ String char EmptyString else nl)
            prevSpace
        else
          collapseWhitespace_ascii_loop line (S i) rest'
            (if Nat.eqb i (String.length line - 1) then nl else nl +:+ " ")
            true
      else
        collapseWhitespace_ascii_loop line (S i) rest'
          (nl +:+ String char EmptyString) false
  end.

Definition collapseWhitespace_ascii (line : string) : outcome string :=
  collapseWhitespace_ascii_loop line 0 line EmptyString false.

(** The logical text [readFile] computes from a trimmed line. *)
Definition logical_text (line : string) : outcome string :=
  do l <- removeComments line; collapseWhitespace l.

(** The path of a [source] directive: [raw] is not indented, is neither empty
    nor a comment after trimming, and its logical text starts with the
    directive's token. *)
Definition source_directive (raw : string) : option string :=
  let isIndented :=
    match raw with
    | String c _ => IsSpace c
    | EmptyString => false
    end in
  let line := TrimSpace raw in
  if (isIndented || String.eqb line EmptyString || HasPrefix line "#")%bool then None
  else
    match logical_text line with
    | Ok text => if HasPrefix text "source " then Some (drop 7 text) else None
    | _ => None
    end.

(** Whether [raw] is a continuation line: indented, and neither empty nor a
    comment after trimming. *)
Definition continuation (raw : string) : bool :=
  let isIndented :=
    match raw with
    | String c _ => IsSpace c
    | EmptyString => false
    end in
  let line := TrimSpace raw in
  (isIndented && negb (String.eqb line EmptyString || HasPrefix line "#"))%bool.

(** [src2] answers as [src1] wherever [src1] did not reach the recursion
    bound. *)
Definition extends (src1 src2 : string -> outcome (list LogicalLine)) : Prop :=
  forall path, src1 path <> OutOfFuel -> src2 path = src1 path.


(** ** Files and tables of the examples *)

Definition nl : string := String newline EmptyString.

(** The text of a file from its lines, each ended by a newline. *)
Definition unlines (l : list string) : string :=
  fold_right (fun a b => a +:+ nl +:+ b) EmptyString l.

(** A file system holding exactly the listed files. *)
Fixpoint files (l : list (string * string)) : filesystem :=
  fun path =>
    match l with
    | [] => OpenErr ("open " +:+ path +:+ ": no such file or directory")
    | (p, content) :: l' =>
        if String.eqb p path then OpenOk content else files l' path
    end.

(** A [source] of an empty file followed by a continuation line. *)
Definition fs_empty_source : filesystem :=
  files [("main", unlines ["source empty"; "  x"]); ("empty", EmptyString)].

(** A [source] of a two-line file followed by a continuation line. *)
Definition fs_source_then_indent : filesystem :=
  files [("main", unlines ["source inc"; "  cont"]);
         ("inc", unlines ["a 1"; "b 2"])].

(** A file whose only line starts with a backslash. *)
Definition fs_backslash : filesystem :=
  files [("main", unlines ["\a"])].

(** A file whose only line starts with a backslash and holds an escaped
    [#] further on. *)
Definition fs_backslash_hash : filesystem :=
  files [("main", unlines ["\a \# b"])].

(** A [source] of a two-line file, then a line of the file itself, then a
    continuation line. *)
Definition fs_source_then_line : filesystem :=
  files [("main", unlines ["source inc"; "c 3"; "  cont"]);
         ("inc", unlines ["a 1"; "b 2"])].

(** The file [main] of [fs_source_then_line] with the two lines of [inc]
    written in place of its [source] directive. *)
Definition fs_spliced_by_hand : filesystem :=
  files [("main", unlines ["a 1"; "b 2"; "c 3"; "  cont"])].


(** The round-trip scenario of the specification, and an unknown key. *)
Definition fs_config : filesystem :=
  files [("config", unlines ["user martin"; "key-file  /home/martin/key.pem";
                             "records example.com"; "   www.example.com"]);
         ("bogus", unlines ["user martin"; "bogus value"]);
         ("top", unlines ["user martin"; "source config"; "bogus value"])].

Definition config_fields : gmap string string :=
  {[ "User" := "string"; "KeyFile" := "string";
     "Records" := "map[string][]string" ]}.

(** A converter that takes the first token as a string. *)
Definition first_token : TypeHandler := fun v =>
  match v with
  | x :: _ => Ok (VString x)
  | [] => Panic
  end.

(** A normalizing converter: the tokens in upper case. *)
Definition upper_tokens : TypeHandler := fun v => Ok (VStrings (map ToUpper v)).

Definition string_registry : gmap string (list TypeHandler) :=
  RegisterType "string" [OneValue; first_token] ∅.

Definition normalizing_registry : gmap string (list TypeHandler) :=
  RegisterType "string" [upper_tokens; first_token] ∅.

(** A custom handler for [Records] that stores its tokens. *)
Definition records_handler : Handler := fun v st =>
  (<["Records" := VStrings v]> st, Ok tt).

Definition config_handlers : Handlers :=
  Some {[ "Records" := records_handler ]}.

(** ** The rest of the package: [FindConfig] *)

(** [strings.TrimLeft(s, cutset)] and [strings.TrimRight(s, cutset)] *)
Definition TrimLeft (s cutset : string) : string :=
  dropWhile (fun c => has_byte c cutset) s.

Definition TrimRight (s cutset : string) : string :=
  dropWhileEnd (fun c => has_byte c cutset) s.

(** [strings.Join(elems, sep)] *)
Fixpoint Join (elems : list string) (sep : string) : string :=
  match elems with
  | [] => EmptyString
  | x :: rest =>
      match rest with
      | [] => x
      | _ :: _ => x +:+ sep +:+ Join rest sep
      end
  end.

(** The [locations] that [FindConfig] builds; [getenv] is [os.Getenv]. *)
Definition FindConfig_locations (getenv : string -> string) (file : string)
  : list string :=
  let file := TrimLeft file "/" in
  let locations := [] in
  let locations :=
    let xdg := getenv "XDG_CONFIG" in
    if negb (String.eqb xdg EmptyString)
    then locations ++ [TrimRight xdg "/" +:+ "/" +:+ file]
    else locations in
  let locations :=
    let home := getenv "HOME" in
    if negb (String.eqb home EmptyString)
    then locations ++ [home +:+ "/." +:+ file]
    else locations in
  locations ++ ["/etc/" +:+ file; "/usr/local/etc/" +:+ file;
                "/usr/pkg/etc/" +:+ file; "./" +:+ file].

(** The loop of [FindConfig]; [stat l] tells whether [os.Stat(l)] gave no
    error. *)
Fixpoint FindConfig_loop (stat : string -> bool) (locations : list string)
  : string :=
  match locations with
  | [] => EmptyString
  | l :: locations' => if stat l then l else FindConfig_loop stat locations'
  end.

(** [FindConfig] *)
Definition FindConfig (getenv : string -> string) (stat : string -> bool)
    (file : string) : string :=
  FindConfig_loop stat (FindConfig_locations getenv file).

(** ** Classes of physical lines *)

(** Whether [readFile] skips [raw]: empty or a comment after trimming. *)
Definition skipped (raw : string) : bool :=
  (String.eqb (TrimSpace raw) EmptyString || HasPrefix (TrimSpace raw) "#")%bool.

(** Whether the logical text of [raw] can be computed (no panic). *)
Definition readable (raw : string) : bool :=
  (skipped raw
   || match logical_text (TrimSpace raw) with
      | Ok _ => true
      | _ => false
      end)%bool.

(** Whether the first line of [input] that is not skipped is indented. *)
Fixpoint first_content_indented (input : list string) : bool :=
  match input with
  | [] => false
  | raw :: input' =>
      if skipped raw then first_content_indented input' else continuation raw
  end.

(** The 1-based positions, counted from [no], of the lines of [input] that
    start a logical line: not skipped and not indented. *)
Fixpoint plain_positions (no : nat) (input : list string) : list nat :=
  match input with
  | [] => []
  | raw :: input' =>
      if (skipped raw || continuation raw)%bool
      then plain_positions (S no) input'
      else S no :: plain_positions (S no) input'
  end.

(** No white space byte other than single spaces between other bytes;
    [after_space] tells whether the byte before was a space. *)
Fixpoint single_spaced (after_space : bool) (s : string) : bool :=
  match s with
  | EmptyString => true
  | String c s' =>
      if Ascii.eqb c space then negb after_space && single_spaced true s'
      else negb (IsSpace c) && single_spaced false s'
  end.

(** Whether [s] ends with the byte [c]. *)
Fixpoint ends_with (c : ascii) (s : string) : bool :=
  match s with
  | EmptyString => false
  | String d EmptyString => Ascii.eqb d c
  | String _ s' => ends_with c s'
  end.

(** ** The caller: package [main] of transip-dynamic *)

Module Main.

(** [type Info struct]; [Type_] is the field [Type]. *)
Record Info : Type := {
  Name : string;
  Expire : Z;
  Type_ : string;
  Content : string;
  FQDN : string
}.

(** [type ipT struct] *)
Record ipT : Type := { IPv6 : string; IPv4 : string }.

Definition set_Content (e : Info) (content : string) : Info :=
  {| Name := Name e; Expire := Expire e; Type_ := Type_ e;
     Content := content; FQDN := FQDN e |}.

Definition set_FQDN (e : Info) (fqdn : string) : Info :=
  {| Name := Name e; Expire := Expire e; Type_ := Type_ e;
     Content := Content e; FQDN := fqdn |}.

(** The handler that [parseConfig] gives for [Records]: the loop over the
    tokens, on the map [config.Records] (a nil map reads as the empty one). *)
Fixpoint Records_handler (v : list string) (Records : gmap string (list string))
  : gmap string (list string) * outcome unit :=
  match v with
  | [] => (Records, Ok tt)
  | r :: v' =>
      let r := TrimRight r "." in
      let s := Split r "." in
      if Nat.ltb (length s) 2 then
        (Records, Err ("record " +:+ r +:+ " doesn't look like a valid FQDN"))
      else
        let domain := Join (skipn (length s - 2) s) "." in
        let FQDNs := [r +:+ "."] in
        Records_handler v'
          (<[domain := default [] (Records !! domain) ++ FQDNs]> Records)
  end.

(** The value the handler for [KeyFile] stores in [config.KeyFile]. *)
Definition KeyFile_value (v : list string) : string := Join v " ".

(** The loop of [getDomain] that gives every entry its [FQDN]. *)
Definition getDomain_FQDN (name : string) (e : Info) : Info :=
  if String.eqb (Name e) "@" then set_FQDN e (name +:+ ".")
  else set_FQDN e (Name e +:+ "." +:+ name +:+ ".").

Definition getDomain_FQDNs (name : string) (info : list Info) : list Info :=
  map (getDomain_FQDN name) info.

(** What a function has written to [os.Stderr], with its result. *)
Definition logged (A : Type) : Type := (list string * outcome A)%type.

(** The body of the inner loop of [updateDomain] for the entry [e]; [f] is
    the counter, [log] what was written to [os.Stderr] so far. *)
Definition updateDomain_entry (record : string) (ip : ipT) (e : Info)
    (f : nat) (log : list string) : logged (Info * nat) :=
  if (negb (String.eqb (Type_ e) "A") && negb (String.eqb (Type_ e) "AAAA"))%bool
  then (log, Ok (e, f))
  else if String.eqb record (FQDN e) then
    let log :=
      if (3600 <? Expire e)%Z
      then log ++ ["transip-dynamic warning: TTL for " +:+ record
                   +:+ " is very high (" +:+ itoa (Expire e) +:+ " seconds)"
                   +:+ String newline EmptyString]
      else log in
    if String.eqb (Type_ e) "A" then
      if String.eqb (IPv4 ip) EmptyString then
        (log, Err ("no IPv4 address found but " +:+ record +:+ " is an A record"))
      else (log, Ok (set_Content e (IPv4 ip), S f))
    else
      if String.eqb (IPv6 ip) EmptyString then
        (log, Err ("no IPv6 address found but " +:+ record +:+ " is an AAAA record"))
      else (log, Ok (set_Content e (IPv6 ip), S f))
  else (log, Ok (e, f)).

(** The inner loop [for i := range info]; the entries are updated in place. *)
Fixpoint updateDomain_inner (record : string) (ip : ipT) (info : list Info)
    (f : nat) (log : list string) : logged (list Info * nat) :=
  match info with
  | [] => (log, Ok ([], f))
  | e :: info' =>
      match updateDomain_entry record ip e f log with
      | (log1, Ok (e', f1)) =>
          match updateDomain_inner record ip info' f1 log1 with
          | (log2, Ok (info2, f2)) => (log2, Ok (e' :: info2, f2))
          | (log2, Err err) => (log2, Err err)
          | (log2, Panic) => (log2, Panic)
          | (log2, OutOfFuel) => (log2, OutOfFuel)
          end
      | (log1, Err err) => (log1, Err err)
      | (log1, Panic) => (log1, Panic)
      | (log1, OutOfFuel) => (log1, OutOfFuel)
      end
  end.

(** The outer loop [for _, record := range records]. *)
Fixpoint updateDomain_records (records : list string) (ip : ipT)
    (info : list Info) (f : nat) (log : list string)
  : logged (list Info * nat) :=
  match records with
  | [] => (log, Ok (info, f))
  | record :: records' =>
      match updateDomain_inner record ip info f log with
      | (log1, Ok (info1, f1)) => updateDomain_records records' ip info1 f1 log1
      | r => r
      end
  end.

(** ["%v"] of a [[]string]. *)
Definition fmt_strings (l : list string) : string := "[" +:+ Join l " " +:+ "]".

(** [updateDomain]; [sendUpdate] is the call that sends the entries off. *)
Definition updateDomain (sendUpdate : string -> list Info -> outcome unit)
    (domain : string) (records : list string) (info : list Info) (ip : ipT)
  : logged unit :=
  match updateDomain_records records ip info 0 [] with
  | (log, Ok (info', f)) =>
      if Nat.ltb f (length records) then
        (log, Err ("no A or AAAA record found for " +:+ fmt_strings records
                   +:+ "; did you set them in TransIP?"))
      else (log, sendUpdate domain info')
  | (log, Err err) => (log, Err err)
  | (log, Panic) => (log, Panic)
  | (log, OutOfFuel) => (log, OutOfFuel)
  end.

(** Whether [updateDomain] may touch [e]: its type is [A] or [AAAA]. *)
Definition is_address (e : Info) : bool :=
  (String.eqb (Type_ e) "A" || String.eqb (Type_ e) "AAAA")%bool.

(** Whether the inner loop updates [e] for [record]. *)
Definition matches (record : string) (e : Info) : bool :=
  (is_address e && String.eqb record (FQDN e))%bool.

(** The address of the family of [e]. *)
Definition address_for (ip : ipT) (e : Info) : string :=
  if String.eqb (Type_ e) "A" then IPv4 ip else IPv6 ip.

(** The number of entries that [record] matches. *)
Fixpoint count_matching (record : string) (info : list Info) : nat :=
  match info with
  | [] => 0
  | e :: info' => (if matches record e then 1 else 0) + count_matching record info'
  end.

(** The number of pairs of a record and an entry it matches. *)
Fixpoint matching_pairs (records : list string) (info : list Info) : nat :=
  match records with
  | [] => 0
  | record :: records' =>
      count_matching record info + matching_pairs records' info
  end.

(** Whether one of [records] matches [e]. *)
Definition touched (records : list string) (e : Info) : bool :=
  existsb (fun record => matches record e) records.

(** The entry as the inner loop for [record] leaves it when it goes well. *)
Definition updated_once (record : string) (ip : ipT) (e : Info) : Info :=
  if matches record e then set_Content e (address_for ip e) else e.

(** The entry as [updateDomain] leaves it when all goes well: the content
    of a matched entry is the address of its family. *)
Definition updated (records : list string) (ip : ipT) (e : Info) : Info :=
  if touched records e then set_Content e (address_for ip e) else e.

End Main.

(** * Properties *)

(** ** Whitespace collapsing and a leading backslash *)

Lemma collapseWhitespace_backslash_first (rest : string) :
  collapseWhitespace (String backslash rest) = Panic.
Proof. reflexivity. Qed.

(** C10: a line that starts with a backslash not followed by [#], such as
    [\a], passes comment removal unchanged and makes [collapseWhitespace]
    read [line[-1]], a panic; [readFile] hands it such a line, so reading a
    file that holds it panics too.  Every string that starts with a
    backslash does so. *)
Theorem collapseWhitespace_not_total :
  removeComments "\a" = Ok "\a"
  /\ collapseWhitespace "\a" = Panic
  /\ (forall rest, collapseWhitespace (String backslash rest) = Panic)
  /\ readFile fs_backslash 1 "main" = Panic.
Proof.
  split; [reflexivity|].
  split; [reflexivity|].
  split; [exact collapseWhitespace_backslash_first|].
  vm_compute. reflexivity.
Qed.

(** ** The index [i-1] of a continuation line *)

(** C3: the file [main] holds a [source] directive of an empty file and then
    an indented line.  No logical line exists when the indented line is
    read, yet [i] is 1, the guard [i == 0] lets it through and [lines[0]] of
    the empty [lines] panics instead of the structural error. *)
Theorem readFile_indent_after_empty_source_panics :
  readFile fs_empty_source 1 "empty" = Ok []
  /\ readFile fs_empty_source 2 "main" = Panic.
Proof. split; vm_compute; reflexivity. Qed.

(** C4: the file [main] holds a [source] directive of a file with the two
    lines [a 1] and [b 2] and then the indented line [cont].  The last
    logical line produced so far is [b 2]; the text is appended to
    [lines[i-1]], which is [a 1], the first of the spliced lines. *)
Theorem readFile_indent_after_source_joins_first_spliced :
  readFile fs_source_then_indent 1 "inc" = Ok [("1", "a 1"); ("2", "b 2")]
  /\ readFile fs_source_then_indent 2 "main"
     = Ok [("1", "a 1 cont"); ("2", "b 2")].
Proof. split; vm_compute; reflexivity. Qed.

(** Where the index is right: as long as no [source] directive has been
    read, [i] is the number of logical lines, the guard [i == 0] catches an
    indented first line and a continuation line is joined to the last
    logical line, which keeps its number. *)
Lemma readFile_step_continuation
    (sourced : string -> outcome (list LogicalLine)) (raw text : string)
    (lines : list LogicalLine) (i no : nat) :
  continuation raw = true ->
  logical_text (TrimSpace raw) = Ok text ->
  readFile_step sourced raw (lines, i, no)
  = if Nat.eqb i 0 then Err "first line can't be indented"
    else match lines !! (i - 1) with
         | None => Panic
         | Some (n, t) => Ok (<[i - 1 := (n, t +:+ " " +:+ text)]> lines, i, S no)
         end.
Proof.
  unfold continuation, logical_text, readFile_step. intros Hc Ht.
  apply andb_prop in Hc as [Hind Hskip]. apply negb_true_iff in Hskip.
  rewrite Hskip, Ht. cbn [obind]. rewrite Hind. reflexivity.
Qed.

Lemma readFile_step_first_indented
    (sourced : string -> outcome (list LogicalLine)) (raw text : string)
    (no : nat) :
  continuation raw = true ->
  logical_text (TrimSpace raw) = Ok text ->
  readFile_step sourced raw ([], 0, no) = Err "first line can't be indented".
Proof.
  intros Hc Ht. rewrite (readFile_step_continuation _ raw text [] 0 no Hc Ht).
  reflexivity.
Qed.

Lemma readFile_step_joins_last
    (sourced : string -> outcome (list LogicalLine)) (raw text n t : string)
    (prev : list LogicalLine) (no : nat) :
  continuation raw = true ->
  logical_text (TrimSpace raw) = Ok text ->
  readFile_step sourced raw (prev ++ [(n, t)], length (prev ++ [(n, t)]), no)
  = Ok (prev ++ [(n, t +:+ " " +:+ text)], length (prev ++ [(n, t)]), S no).
Proof.
  intros Hc Ht.
  rewrite (readFile_step_continuation _ raw text _ _ no Hc Ht).
  rewrite length_app. cbn [length]. rewrite Nat.add_1_r.
  cbn [Nat.eqb Nat.sub]. rewrite Nat.sub_0_r.
  rewrite (list_lookup_middle prev [] (n, t) (length prev) eq_refl).
  rewrite (insert_app_r_alt prev [(n, t)] (length prev)) by lia.
  rewrite Nat.sub_diag. reflexivity.
Qed.

Lemma readFile_step_counts_lines
    (sourced : string -> outcome (list LogicalLine)) (raw : string)
    (lines lines' : list LogicalLine) (no i' no' : nat) :
  source_directive raw = None ->
  readFile_step sourced raw (lines, length lines, no) = Ok (lines', i', no') ->
  i' = length lines'.
Proof.
  unfold source_directive, logical_text, readFile_step. intros Hsrc Hstep.
  destruct (match raw with EmptyString => false | String c _ => IsSpace c end).
  - destruct (String.eqb _ _ || HasPrefix _ _)%bool; [congruence|].
    destruct (obind (removeComments _) _) as [text| | |]; cbn [obind] in Hstep;
      try discriminate Hstep.
    destruct (Nat.eqb (length lines) 0); [discriminate Hstep|].
    destruct (lines !! (length lines - 1)) as [[n t]|]; [|discriminate Hstep].
    injection Hstep as <- <- <-. rewrite length_insert. reflexivity.
  - cbn [orb] in Hsrc.
    destruct (String.eqb _ _ || HasPrefix _ _)%bool; [congruence|].
    destruct (obind (removeComments _) _) as [text| | |]; cbn [obind] in Hstep;
      try discriminate Hstep.
    destruct (HasPrefix text "source "); [discriminate Hsrc|].
    injection Hstep as <- <- <-. rewrite length_app. cbn [length]. lia.
Qed.

(** ** Converter chains *)

(** C1: for the chain [upper_tokens; first_token] registered for [string]
    and the tokens [martin], the code calls the second converter on the
    original tokens and stores [martin]; threading the first converter's
    output into the second, as documented, would store [MARTIN]. *)
Theorem setFromTypeHandler_does_not_thread :
  setFromTypeHandler identical_type normalizing_registry "User" "string"
    ["martin"] ∅
  = (<["User" := VString "martin"]> ∅, (true, Ok tt))
  /\ chain_documented [upper_tokens; first_token] ["martin"] VNil
     = Ok (VString "MARTIN").
Proof. split; vm_compute; reflexivity. Qed.

(** What the chain does do: converters run in registration order, each on
    the original tokens; the first error ends the chain and the field keeps
    its value. *)
Lemma typeHandler_loop_app (before after : list TypeHandler)
    (value : list string) (v : Value) :
  typeHandler_loop (before ++ after) value v
  = do v' <- typeHandler_loop before value v; typeHandler_loop after value v'.
Proof.
  revert v. induction before as [|h before IH]; intros v; simpl; [reflexivity|].
  destruct (h value); simpl; auto.
Qed.

Lemma typeHandler_loop_first_error (before after : list TypeHandler)
    (h : TypeHandler) (value : list string) (e : string) (v w : Value) :
  typeHandler_loop before value v = Ok w ->
  h value = Err e ->
  typeHandler_loop (before ++ h :: after) value v = Err e.
Proof.
  intros Hb He. rewrite typeHandler_loop_app, Hb. simpl. rewrite He. reflexivity.
Qed.

Lemma setFromTypeHandler_first_error (assignable : Value -> string -> bool)
    (typeHandlers : gmap string (list TypeHandler)) (fieldName T : string)
    (before after : list TypeHandler) (h : TypeHandler) (value : list string)
    (e : string) (w : Value) (st : store) :
  typeHandlers !! T = Some (before ++ h :: after) ->
  typeHandler_loop before value VNil = Ok w ->
  h value = Err e ->
  setFromTypeHandler assignable typeHandlers fieldName T value st
  = (st, (true, Err e)).
Proof.
  intros HT Hb He. unfold setFromTypeHandler. rewrite HT.
  rewrite (typeHandler_loop_first_error before after h value e VNil w Hb He).
  reflexivity.
Qed.

Lemma setFromTypeHandler_assigns_last (assignable : Value -> string -> bool)
    (typeHandlers : gmap string (list TypeHandler)) (fieldName T : string)
    (before : list TypeHandler) (h : TypeHandler) (value : list string)
    (v w : Value) (st : store) :
  typeHandlers !! T = Some (before ++ [h]) ->
  typeHandler_loop before value VNil = Ok w ->
  h value = Ok v ->
  assignable v T = true ->
  setFromTypeHandler assignable typeHandlers fieldName T value st
  = (<[fieldName := v]> st, (true, Ok tt)).
Proof.
  intros HT Hb Hv Ha. unfold setFromTypeHandler. rewrite HT.
  rewrite typeHandler_loop_app, Hb. cbn [obind typeHandler_loop].
  rewrite Hv. cbn [obind]. rewrite Ha. reflexivity.
Qed.

(** ** The arity converters *)

Lemma OneValue_error_iff (v : list string) :
  (exists e, OneValue v = Err e) <-> length v <> 1.
Proof.
  unfold OneValue. destruct (Nat.eqb_spec (length v) 1) as [E|E]; simpl.
  - split; [intros [e He]; discriminate | intros H; contradiction].
  - split; [auto | intros _; eexists; reflexivity].
Qed.

Lemma NValues_error_iff (min max : Z) (v : list string) :
  (exists e, NValues min max v = Err e)
  <-> ((0 < min /\ Z.of_nat (length v) < min)
       \/ (0 < max /\ max < Z.of_nat (length v)))%Z.
Proof.
  unfold NValues.
  destruct (Z.ltb_spec 0 min), (Z.ltb_spec (Z.of_nat (length v)) min),
    (Z.ltb_spec 0 max), (Z.ltb_spec max (Z.of_nat (length v))); simpl;
    (split; [intros [e He]; try discriminate; lia
            | intros Hc; try (eexists; reflexivity); lia]).
Qed.

(** C9: [OneValue] errors exactly when the number of tokens differs from
    one and [NValues min max] exactly when a positive [min] exceeds it or a
    positive [max] is exceeded by it; both return the tokens otherwise.  A
    field whose chain starts with [OneValue], given any number of tokens
    other than one (two, say), fails with the arity error and the store is
    left as it was. *)
Theorem arity_converters_validate_before_assignment :
  (forall v, (exists e, OneValue v = Err e) <-> length v <> 1)
  /\ (forall v, length v = 1 -> OneValue v = Ok (VStrings v))
  /\ (forall min max v,
        (exists e, NValues min max v = Err e)
        <-> ((0 < min /\ Z.of_nat (length v) < min)
             \/ (0 < max /\ max < Z.of_nat (length v)))%Z)
  /\ (forall min max v,
        (forall e, NValues min max v <> Err e) -> NValues min max v = Ok (VStrings v))
  /\ (forall assignable typeHandlers T rest fieldName v st,
        length v <> 1 ->
        setFromTypeHandler assignable
          (RegisterType T (OneValue :: rest) typeHandlers) fieldName T v st
        = (st, (true, Err "must have exactly one value"))).
Proof.
  split; [exact OneValue_error_iff|].
  split.
  { intros v Hv. unfold OneValue. rewrite Hv. reflexivity. }
  split; [exact NValues_error_iff|].
  split.
  { intros min max v Hne. unfold NValues in *.
    destruct ((0 <? min) && _)%Z; [exfalso; eapply Hne; reflexivity|].
    destruct ((0 <? max) && _)%Z; [exfalso; eapply Hne; reflexivity|].
    reflexivity. }
  intros assignable typeHandlers T rest fieldName v st Hv.
  unfold setFromTypeHandler, RegisterType.
  rewrite lookup_insert_eq. simpl.
  unfold OneValue. destruct (Nat.eqb_spec (length v) 1); [contradiction|].
  reflexivity.
Qed.

Lemma arity_converters_witness :
  setFromTypeHandler identical_type string_registry "User" "string"
    ["martin"; "tournoij"] ∅
  = (∅, (true, Err "must have exactly one value")).
Proof.
  apply (proj2 (proj2 (proj2 (proj2 arity_converters_validate_before_assignment)))).
  simpl. lia.
Defined.

(** ** Name resolution *)

Section NameResolver.

Variables Camelize Pluralize : string -> string.
Variable fields : gmap string string.

Lemma fieldNameFromKey_Ok_inv (key f : string) :
  fieldNameFromKey Camelize Pluralize fields key = Ok f ->
  (f = acronymize Camelize key \/ f = Pluralize (acronymize Camelize key))
  /\ is_Some (fields !! f).
Proof.
  unfold fieldNameFromKey.
  destruct (fields !! acronymize Camelize key) eqn:E1.
  - intros [= <-]. rewrite E1. eauto.
  - destruct (fields !! Pluralize (acronymize Camelize key)) eqn:E2; [|discriminate].
    intros [= <-]. rewrite E2. eauto.
Qed.

Lemma fieldNameFromKey_plural (key : string) :
  fields !! acronymize Camelize key = None ->
  is_Some (fields !! Pluralize (acronymize Camelize key)) ->
  fieldNameFromKey Camelize Pluralize fields key
  = Ok (Pluralize (acronymize Camelize key)).
Proof.
  intros E1 [T E2]. unfold fieldNameFromKey. rewrite E1, E2. reflexivity.
Qed.

Lemma fieldNameFromKey_unknown (key : string) :
  fields !! acronymize Camelize key = None ->
  fields !! Pluralize (acronymize Camelize key) = None ->
  fieldNameFromKey Camelize Pluralize fields key
  = Err ("unknown option (field " +:+ acronymize Camelize key +:+ " or "
         +:+ Pluralize (acronymize Camelize key) +:+ " is missing)").
Proof.
  intros E1 E2. unfold fieldNameFromKey. rewrite E1, E2. reflexivity.
Qed.

End NameResolver.

(** C2 fails as the specification states it: with the only field [Record],
    the key [records] is camel-cased to [Records], which is not a field, and
    its plural [Records] is not one either; resolution fails. *)
Lemma fieldNameFromKey_records_for_Record_fails :
  fieldNameFromKey Camelize_model Pluralize_model {[ "Record" := "string" ]}
    "records"
  = Err "unknown option (field Records or Records is missing)".
Proof. vm_compute. reflexivity. Qed.

(** C2, as amended: the fallback goes from the singular to the plural only.
    The key [record] resolves to a field [Records] when there is no field
    [Record]; the key [records] is not resolved when neither [Records] nor
    the plural of [Records] is a field, whether or not [Record] is one; and
    whatever the key, a resolved name is the normalized key or its plural. *)
Theorem fieldNameFromKey_singular_to_plural_only
    (Camelize Pluralize : string -> string) (fields : gmap string string) :
  Camelize "record" = "Record" ->
  Pluralize "Record" = "Records" ->
  Camelize "records" = "Records" ->
  (fields !! "Record" = None -> is_Some (fields !! "Records") ->
   fieldNameFromKey Camelize Pluralize fields "record" = Ok "Records")
  /\ (fields !! "Records" = None -> fields !! Pluralize "Records" = None ->
      fieldNameFromKey Camelize Pluralize fields "records"
      = Err ("unknown option (field Records or " +:+ Pluralize "Records"
             +:+ " is missing)"))
  /\ (forall key f,
        fieldNameFromKey Camelize Pluralize fields key = Ok f ->
        f = acronymize Camelize key \/ f = Pluralize (acronymize Camelize key)).
Proof.
  intros Hc Hp Hcs.
  assert (A1 : acronymize Camelize "record" = "Record")
    by (unfold acronymize; rewrite Hc; vm_compute; reflexivity).
  assert (A2 : acronymize Camelize "records" = "Records")
    by (unfold acronymize; rewrite Hcs; vm_compute; reflexivity).
  split; [|split].
  - intros E1 E2.
    rewrite fieldNameFromKey_plural; rewrite A1, ?Hp; auto.
  - intros E1 E2.
    rewrite fieldNameFromKey_unknown; rewrite A2; auto.
  - intros key f Hf. apply (fieldNameFromKey_Ok_inv _ _ _ _ _ Hf).
Qed.

Lemma fieldNameFromKey_singular_to_plural_witness :
  fieldNameFromKey Camelize_model Pluralize_model {[ "Records" := "string" ]}
    "record" = Ok "Records".
Proof.
  apply (proj1 (fieldNameFromKey_singular_to_plural_only
                  Camelize_model Pluralize_model {[ "Records" := "string" ]}
                  eq_refl eq_refl eq_refl)).
  - vm_compute. reflexivity.
  - exists "string". vm_compute. reflexivity.
Defined.

(** ** Dispatch *)

Section Dispatch.

Variables Camelize Pluralize : string -> string.
Variable assignable : Value -> string -> bool.
Variable fields : gmap string string.

Lemma Parse_loop_custom_handler (typeHandlers : gmap string (list TypeHandler))
    (file : string) (m : gmap string Handler) (h : Handler)
    (no text : string) (lines' : list LogicalLine) (st : store)
    (fieldName : string) :
  fieldNameFromKey Camelize Pluralize fields (hd EmptyString (Split text space))
  = Ok fieldName ->
  m !! fieldName = Some h ->
  Parse_loop Camelize Pluralize assignable fields typeHandlers file (Some m)
    ((no, text) :: lines') st
  = match h (tl (Split text space)) st with
    | (st', Ok _) =>
        Parse_loop Camelize Pluralize assignable fields typeHandlers file
          (Some m) lines' st'
    | (st', Err e) =>
        (st', Err (fmterr file no (hd EmptyString (Split text space))
                     (e +:+ " (from handler)")))
    | (st', r) => (st', r)
    end.
Proof.
  intros Hf Hm.
  destruct (fieldNameFromKey_Ok_inv _ _ _ _ _ Hf) as [_ [T HT]].
  cbn [Parse_loop]. rewrite Hf, HT. unfold setFromHandler. rewrite Hm.
  destruct (h (tl (Split text space)) st) as [st' [[]|e| |]]; reflexivity.
Qed.

End Dispatch.

(** C7: when the resolved field name has an entry in the handlers map, the
    line is processed by calling that handler on the tokens after the key;
    its error, with "(from handler)" appended, is what [Parse] returns
    (through [fmterr]), its success continues with the next line; and the
    outcome of the line is the same whatever the type registry holds. *)
Theorem custom_handler_bypasses_registry
    (Camelize Pluralize : string -> string)
    (assignable : Value -> string -> bool) (fields : gmap string string)
    (typeHandlers : gmap string (list TypeHandler))
    (file : string) (m : gmap string Handler) (h : Handler)
    (no text : string) (lines' : list LogicalLine) (st : store)
    (fieldName : string) :
  fieldNameFromKey Camelize Pluralize fields (hd EmptyString (Split text space))
  = Ok fieldName ->
  m !! fieldName = Some h ->
  Parse_loop Camelize Pluralize assignable fields typeHandlers file (Some m)
    ((no, text) :: lines') st
  = match h (tl (Split text space)) st with
    | (st', Ok _) =>
        Parse_loop Camelize Pluralize assignable fields typeHandlers file
          (Some m) lines' st'
    | (st', Err e) =>
        (st', Err (fmterr file no (hd EmptyString (Split text space))
                     (e +:+ " (from handler)")))
    | (st', r) => (st', r)
    end
  /\ (forall typeHandlers',
        Parse_loop Camelize Pluralize assignable fields typeHandlers file
          (Some m) [(no, text)] st
        = Parse_loop Camelize Pluralize assignable fields typeHandlers' file
            (Some m) [(no, text)] st).
Proof.
  intros Hf Hm. split.
  - exact (Parse_loop_custom_handler Camelize Pluralize assignable fields
             typeHandlers file m h no text lines' st fieldName Hf Hm).
  - intros typeHandlers'.
    etransitivity;
      [exact (Parse_loop_custom_handler Camelize Pluralize assignable fields
                typeHandlers file m h no text [] st fieldName Hf Hm)|].
    symmetry. etransitivity;
      [exact (Parse_loop_custom_handler Camelize Pluralize assignable fields
                typeHandlers' file m h no text [] st fieldName Hf Hm)|].
    destruct (h (tl (Split text space)) st) as [st' [[]|e| |]]; reflexivity.
Qed.

Lemma custom_handler_witness :
  Parse_loop Camelize_model Pluralize_model identical_type config_fields
    string_registry "config" config_handlers
    [("3", "records example.com www.example.com")] ∅
  = (<["Records" := VStrings ["example.com"; "www.example.com"]]> ∅, Ok tt).
Proof.
  refine (eq_trans
    (proj1 (custom_handler_bypasses_registry
       Camelize_model Pluralize_model identical_type config_fields
       string_registry "config" {[ "Records" := records_handler ]}
       records_handler "3" "records example.com www.example.com" [] ∅
       "Records" _ _)) _).
  - vm_compute. reflexivity.
  - vm_compute. reflexivity.
  - vm_compute. reflexivity.
Defined.

(** ** Errors of [Parse] *)


Section ParseLines.

Variables Camelize Pluralize : string -> string.
Variable assignable : Value -> string -> bool.
Variable fields : gmap string string.
Variable typeHandlers : gmap string (list TypeHandler).
Variable file : string.
Variable handlers : Handlers.

Lemma Parse_loop_app_aux (pre post : list LogicalLine) (st : store) :
  Parse_loop Camelize Pluralize assignable fields typeHandlers file handlers
    (pre ++ post) st
  = match Parse_loop Camelize Pluralize assignable fields typeHandlers file
            handlers pre st with
    | (st1, Ok _) =>
        Parse_loop Camelize Pluralize assignable fields typeHandlers file
          handlers post st1
    | (st1, r) => (st1, r)
    end.
Proof.
  revert st. induction pre as [|[no text] pre IH]; intros st; [reflexivity|].
  change (((no, text) :: pre) ++ post) with ((no, text) :: (pre ++ post)).
  cbn [Parse_loop].
  destruct (fieldNameFromKey _ _ _ _) as [fieldName| | |]; try reflexivity.
  destruct (fields !! fieldName) as [T|]; [|reflexivity].
  destruct (setFromHandler _ _ _ _) as [st1 [[] [[]| | |]]];
    try reflexivity; try apply IH.
  all: destruct (setFromTypeHandler _ _ _ _ _ _) as [st2 [[] [[]| | |]]];
    try reflexivity; apply IH.
Qed.

End ParseLines.

Section ParseErrors.

Variables Camelize Pluralize : string -> string.
Variable assignable : Value -> string -> bool.
Variable fields : gmap string string.
Variable typeHandlers : gmap string (list TypeHandler).
Variable file : string.
Variable handlers : Handlers.



End ParseErrors.



(** ** The [source] directive *)

Section SourceDirective.

Variable sourced : string -> outcome (list LogicalLine).

Lemma readFile_loop_app (pre post : list string) (st : loop_state) :
  readFile_loop sourced (pre ++ post) st
  = do st' <- readFile_loop sourced pre st; readFile_loop sourced post st'.
Proof.
  revert st. induction pre as [|raw pre IH]; intros st; simpl; [reflexivity|].
  destruct (readFile_step sourced raw st); simpl; auto.
Qed.

Lemma readFile_step_source (raw path : string) (lines : list LogicalLine)
    (i no : nat) :
  source_directive raw = Some path ->
  readFile_step sourced raw (lines, i, no)
  = do more <- sourced path; Ok (lines ++ more, S i, S no).
Proof.
  unfold source_directive, readFile_step, logical_text.
  destruct raw as [|c raw']; [discriminate|].
  destruct (IsSpace c); [discriminate|]. cbn [orb].
  destruct (String.eqb _ _ || HasPrefix _ _)%bool; [discriminate|].
  destruct (obind (removeComments _) _) as [text| | |]; try discriminate.
  cbn [obind].
  destruct (HasPrefix text "source "); [|discriminate].
  intros [= <-]. reflexivity.
Qed.

(** The line counter follows the physical lines, whatever they hold. *)
Lemma readFile_step_no (raw : string) (st st' : loop_state) :
  readFile_step sourced raw st = Ok st' -> st'.2 = S st.2.
Proof.
  destruct st as [[lines i] no]. intros Hstep.
  unfold readFile_step, obind in Hstep.
  repeat case_match; simplify_eq; reflexivity.
Qed.

Lemma readFile_loop_no (input : list string) (st st' : loop_state) :
  readFile_loop sourced input st = Ok st' -> st'.2 = length input + st.2.
Proof.
  revert st. induction input as [|raw input IH]; intros st; simpl.
  - intros [= <-]. reflexivity.
  - destruct (readFile_step sourced raw st) as [st1| | |] eqn:E; simpl;
      try discriminate.
    intros H. rewrite (IH _ H), (readFile_step_no _ _ _ E). lia.
Qed.

(** A line that is not a continuation line neither reads nor changes the
    logical lines made so far: it adds its own after them. *)
Lemma readFile_step_frame (raw : string) (lines : list LogicalLine)
    (i no : nat) :
  continuation raw = false ->
  readFile_step sourced raw (lines, i, no)
  = do d <- readFile_step sourced raw ([], 0, no);
    Ok (lines ++ d.1.1, i + d.1.2, d.2).
Proof.
  unfold continuation, readFile_step. intros Hc.
  destruct (String.eqb _ _ || HasPrefix _ _)%bool eqn:Hskip.
  - simpl. rewrite app_nil_r, Nat.add_0_r. reflexivity.
  - rewrite andb_true_r in Hc.
    destruct (obind (removeComments _) _) as [text| | |]; cbn [obind];
      try reflexivity.
    rewrite Hc.
    destruct (HasPrefix text "source ").
    + destruct (sourced _); cbn [obind fst snd app]; try reflexivity.
      rewrite Nat.add_1_r. reflexivity.
    + cbn [obind fst snd app]. rewrite Nat.add_1_r. reflexivity.
Qed.

Lemma readFile_loop_frame (input : list string) (lines : list LogicalLine)
    (i no : nat) :
  Forall (fun raw => continuation raw = false) input ->
  readFile_loop sourced input (lines, i, no)
  = do d <- readFile_loop sourced input ([], 0, no);
    Ok (lines ++ d.1.1, i + d.1.2, d.2).
Proof.
  intros Hall. revert lines i no.
  induction Hall as [|raw input Hraw Hall IH]; intros lines i no;
    cbn [readFile_loop].
  - simpl. rewrite app_nil_r, Nat.add_0_r. reflexivity.
  - rewrite (readFile_step_frame raw lines i no Hraw).
    destruct (readFile_step sourced raw ([], 0, no)) as [[[l1 i1] n1]| | |];
      simpl; try reflexivity.
    rewrite (IH (lines ++ l1) (i + i1) n1), (IH l1 i1 n1).
    destruct (readFile_loop sourced input ([], 0, n1)) as [[[l2 i2] n2]| | |];
      simpl; try reflexivity.
    rewrite app_assoc, Nat.add_assoc. reflexivity.
Qed.

End SourceDirective.

(** C5: the file [main] holds a [source] directive of a file with the two
    lines [a 1] and [b 2], then the line [c 3], then the indented line
    [cont].  With the two lines written in place of the directive the
    indented line continues [c 3].  Read through the directive, the two
    lines are appended with their own numbers, but [i] has counted the
    directive as one line, so [lines[i-1]] is [b 2]: the text [cont] is
    joined to a line of the sourced file and [c 3] stays as it is.  The
    output is not the one with the sourced lines spliced in at the position
    of the directive. *)
Theorem readFile_source_misplaces_continuation :
  readFile fs_source_then_line 1 "inc" = Ok [("1", "a 1"); ("2", "b 2")]
  /\ readFile fs_spliced_by_hand 1 "main"
     = Ok [("1", "a 1"); ("2", "b 2"); ("3", "c 3 cont")]
  /\ readFile fs_source_then_line 2 "main"
     = Ok [("1", "a 1"); ("2", "b 2 cont"); ("2", "c 3")].
Proof. repeat split; vm_compute; reflexivity. Qed.

(** X27: in a file whose physical lines are [pre], then a non-indented
    [source path] line, then [post]: when [path] cannot be opened, the
    error of opening it is the result of the whole read, and so is any
    other error of reading [path]; when [post] has no continuation line,
    the result is what [pre] produced, then the logical lines that
    [readFile] returns for [path] with the numbers of that file's own
    lines, then what [post] produces with its lines numbered from their
    own position in this file. *)
Theorem readFile_source_splices (fs : filesystem) (fuel : nat)
    (file content : string) (pre post : list string) (raw path : string) :
  fs file = OpenOk content ->
  ScanLines content = pre ++ raw :: post ->
  source_directive raw = Some path ->
  (forall st e,
     readFile_loop (readFile fs (S fuel)) pre ([], 0, 0) = Ok st ->
     fs path = OpenErr e ->
     readFile fs (S (S fuel)) file = Err e)
  /\ (forall st e,
        readFile_loop (readFile fs (S fuel)) pre ([], 0, 0) = Ok st ->
        readFile fs (S fuel) path = Err e ->
        readFile fs (S (S fuel)) file = Err e)
  /\ (Forall (fun r => continuation r = false) post ->
      readFile fs (S (S fuel)) file
      = (do st <- readFile_loop (readFile fs (S fuel)) pre ([], 0, 0);
         do more <- readFile fs (S fuel) path;
         do rest <- readFile_loop (readFile fs (S fuel)) post
                      ([], 0, S (length pre));
         Ok (st.1.1 ++ more ++ rest.1.1))).
Proof.
  intros Hfile Hscan Hsrc.
  assert (Hmain : readFile fs (S (S fuel)) file
    = (do st <- readFile_loop (readFile fs (S fuel)) pre ([], 0, 0);
       do more <- readFile fs (S fuel) path;
       do st' <- readFile_loop (readFile fs (S fuel)) post
                   (st.1.1 ++ more, S st.1.2, S (length pre));
       Ok (st'.1.1))).
  { change (readFile fs (S (S fuel)) file)
      with (match fs file with
            | OpenErr e => Err e
            | OpenOk content =>
                do st <- readFile_loop (readFile fs (S fuel))
                           (ScanLines content) ([], 0, 0);
                Ok (st.1.1)
            end).
    rewrite Hfile, Hscan, readFile_loop_app.
    destruct (readFile_loop (readFile fs (S fuel)) pre ([], 0, 0))
      as [[[l1 i1] n1]| | |] eqn:Hpre; cbn [obind]; try reflexivity.
    apply readFile_loop_no in Hpre. simpl in Hpre. rewrite Nat.add_0_r in Hpre.
    subst n1. cbn [readFile_loop fst snd].
    rewrite (readFile_step_source _ raw path l1 i1 (length pre) Hsrc).
    destruct (readFile fs (S fuel) path); reflexivity. }
  assert (Herr : forall st e,
    readFile_loop (readFile fs (S fuel)) pre ([], 0, 0) = Ok st ->
    readFile fs (S fuel) path = Err e ->
    readFile fs (S (S fuel)) file = Err e).
  { intros st e Hpre He. rewrite Hmain, Hpre. cbn [obind]. rewrite He.
    reflexivity. }
  split; [|split; [exact Herr|]].
  - intros st e Hpre Hopen. apply (Herr st e Hpre).
    cbn [readFile]. rewrite Hopen. reflexivity.
  - intros Hall. rewrite Hmain.
    destruct (readFile_loop (readFile fs (S fuel)) pre ([], 0, 0))
      as [[[l1 i1] n1]| | |]; cbn [obind]; try reflexivity.
    destruct (readFile fs (S fuel) path) as [more| | |]; cbn [obind];
      try reflexivity.
    cbn [fst snd].
    rewrite (readFile_loop_frame _ post (l1 ++ more) (S i1) _ Hall).
    destruct (readFile_loop (readFile fs (S fuel)) post ([], 0, S (length pre)))
      as [[[l2 i2] n2]| | |]; cbn [obind fst snd]; try reflexivity.
    rewrite app_assoc. reflexivity.
Qed.

Lemma readFile_source_splices_witness :
  readFile fs_config 2 "top"
  = Ok [("1", "user martin");
        ("1", "user martin"); ("2", "key-file /home/martin/key.pem");
        ("3", "records example.com www.example.com");
        ("3", "bogus value")].
Proof.
  refine (eq_trans
    (proj2 (proj2 (readFile_source_splices fs_config 0 "top"
       (unlines ["user martin"; "source config"; "bogus value"])
       ["user martin"] ["bogus value"] "source config" "config" _ _ _)) _) _).
  - vm_compute. reflexivity.
  - vm_compute. reflexivity.
  - vm_compute. reflexivity.
  - repeat constructor.
  - vm_compute. reflexivity.
Defined.

(** ** Comments *)

Section StringFacts.

Lemma append_assoc (a b c : string) : (a +:+ b) +:+ c = a +:+ (b +:+ c).
Proof. induction a as [|x a IH]; simpl; [reflexivity | rewrite IH; reflexivity]. Qed.

Lemma append_nil_r (a : string) : a +:+ EmptyString = a.
Proof. induction a as [|x a IH]; simpl; [reflexivity | rewrite IH; reflexivity]. Qed.

Lemma length_append (a b : string) :
  String.length (a +:+ b) = String.length a + String.length b.
Proof. induction a as [|x a IH]; simpl; [reflexivity | rewrite IH; reflexivity]. Qed.

Lemma take_append (a b : string) : take (String.length a) (a +:+ b) = a.
Proof.
  induction a as [|x a IH]; simpl; [destruct b; reflexivity | rewrite IH; reflexivity].
Qed.

Lemma drop_append (a b : string) : drop (String.length a) (a +:+ b) = b.
Proof. induction a as [|x a IH]; simpl; [destruct b; reflexivity | exact IH]. Qed.

Lemma take_append_S (a b : string) (c : ascii) :
  take (S (String.length a)) (a +:+ String c b) = a +:+ String c EmptyString.
Proof.
  induction a as [|x a IH].
  - simpl. destruct b; reflexivity.
  - change (String x (take (S (String.length a)) (a +:+ String c b))
            = String x (a +:+ String c EmptyString)).
    rewrite IH. reflexivity.
Qed.

Lemma drop_append_S (a b : string) (c : ascii) :
  drop (S (String.length a)) (a +:+ String c b) = b.
Proof.
  induction a as [|x a IH]; [destruct b; reflexivity | exact IH].
Qed.

Lemma get_append (a b : string) (c : ascii) :
  String.get (String.length a) (a +:+ String c b) = Some c.
Proof. induction a as [|x a IH]; simpl; [reflexivity | exact IH]. Qed.

Lemma get_lt (s : string) (j : nat) :
  j < String.length s -> exists c, String.get j s = Some c.
Proof.
  revert j. induction s as [|x s IH]; intros j Hj; simpl in *; [lia|].
  destruct j as [|j]; [eauto | apply IH; lia].
Qed.

Lemma string_empty_or_snoc (a : string) :
  a = EmptyString \/ exists a' c, a = a' +:+ String c EmptyString.
Proof.
  induction a as [|x a IH]; [left; reflexivity | right].
  destruct IH as [-> | (a' & c & ->)].
  - exists EmptyString, x. reflexivity.
  - exists (String x a'), c. reflexivity.
Qed.

Lemma has_byte_append (c : ascii) (a b : string) :
  has_byte c (a +:+ b) = (has_byte c a || has_byte c b)%bool.
Proof.
  induction a as [|x a IH]; simpl; [reflexivity|].
  rewrite IH, orb_assoc. reflexivity.
Qed.

Lemma IndexByte_None (c : ascii) (s : string) :
  IndexByte c s = None -> has_byte c s = false.
Proof.
  induction s as [|x s IH]; simpl; [reflexivity|].
  destruct (Ascii.eqb x c); [discriminate|].
  destruct (IndexByte c s); [discriminate|]. intros _. apply IH. reflexivity.
Qed.

Lemma IndexByte_Some (c : ascii) (s : string) (k : nat) :
  IndexByte c s = Some k ->
  exists a b, s = a +:+ String c b /\ String.length a = k /\ has_byte c a = false.
Proof.
  revert k. induction s as [|x s IH]; intros k; simpl; [discriminate|].
  destruct (Ascii.eqb_spec x c) as [->|Hx].
  - intros [= <-]. exists EmptyString, s. auto.
  - destruct (IndexByte c s) as [k'|]; [|discriminate].
    intros [= <-]. destruct (IH k' eq_refl) as (a & b & -> & <- & Ha).
    exists (String x a), b. simpl. rewrite Ha.
    destruct (Ascii.eqb_spec x c); [contradiction | auto].
Qed.

Lemma visible_append (a b : string) :
  visible (a +:+ b) = visible a +:+ visible b.
Proof.
  induction a as [|x a IH]; simpl; [reflexivity|].
  destruct (IsSpace x || Ascii.eqb x backslash)%bool; rewrite IH; reflexivity.
Qed.

End StringFacts.

Section CommentRemoval.

(** The equations of [strip_comment_spec], one per kind of first byte. *)
Lemma strip_hash (s : string) : strip_comment_spec (String hash s) = EmptyString.
Proof. reflexivity. Qed.

Lemma strip_backslash_hash (s : string) :
  strip_comment_spec (String backslash (String hash s))
  = String hash (strip_comment_spec s).
Proof. reflexivity. Qed.

Lemma strip_backslash_end :
  strip_comment_spec (String backslash EmptyString) = String backslash EmptyString.
Proof. reflexivity. Qed.

Lemma strip_backslash_other (d : ascii) (s : string) :
  d <> hash ->
  strip_comment_spec (String backslash (String d s))
  = String backslash (strip_comment_spec (String d s)).
Proof.
  intros Hd. apply Ascii.eqb_neq in Hd.
  change (strip_comment_spec (String backslash (String d s)))
    with (if Ascii.eqb d hash then String hash (strip_comment_spec s)
          else String backslash (strip_comment_spec (String d s))).
  rewrite Hd. reflexivity.
Qed.

Lemma strip_other (c : ascii) (s : string) :
  c <> hash -> c <> backslash ->
  strip_comment_spec (String c s) = String c (strip_comment_spec s).
Proof.
  intros Hh Hb. apply Ascii.eqb_neq in Hh, Hb.
  cbn [strip_comment_spec]. rewrite Hh, Hb. reflexivity.
Qed.

Lemma has_byte_cons_false (c x : ascii) (a : string) :
  has_byte c (String x a) = false -> x <> c /\ has_byte c a = false.
Proof.
  cbn [has_byte]. intros H. apply orb_false_elim in H as [Hx Ha].
  apply Ascii.eqb_neq in Hx. auto.
Qed.

Lemma backslash_not_hash : backslash <> hash.
Proof. discriminate. Qed.

Lemma strip_no_hash (a : string) :
  has_byte hash a = false -> strip_comment_spec a = a.
Proof.
  induction a as [|x a IH]; [reflexivity|].
  intros H. apply has_byte_cons_false in H as [Hx Ha].
  destruct (Ascii.eqb_spec x backslash) as [->|Hb].
  - destruct a as [|d a']; [apply strip_backslash_end|].
    pose proof Ha as Ha0. apply has_byte_cons_false in Ha as [Hd _].
    rewrite strip_backslash_other by exact Hd. rewrite (IH Ha0). reflexivity.
  - rewrite strip_other by assumption. rewrite (IH Ha). reflexivity.
Qed.

(** An escaped [#] after a stretch without [#]: the backslash goes, the
    [#] stays, and the scan goes on behind it. *)
Lemma strip_escaped (a b : string) :
  has_byte hash a = false ->
  strip_comment_spec (a +:+ String backslash (String hash b))
  = a +:+ String hash (strip_comment_spec b).
Proof.
  induction a as [|x a IH]; [intros _; apply strip_backslash_hash|].
  intros H. apply has_byte_cons_false in H as [Hx Ha].
  specialize (IH Ha). cbn [String.append].
  destruct (Ascii.eqb_spec x backslash) as [->|Hb].
  - destruct a as [|d a']; cbn [String.append] in *.
    + rewrite strip_backslash_other by exact backslash_not_hash.
      rewrite IH. reflexivity.
    + apply has_byte_cons_false in Ha as [Hd _].
      rewrite strip_backslash_other by exact Hd. rewrite IH. reflexivity.
  - rewrite strip_other by assumption. rewrite IH. reflexivity.
Qed.

(** An unescaped [#] after a stretch without [#]: the line ends before it. *)
Lemma strip_unescaped (a b : string) (c : ascii) :
  has_byte hash a = false ->
  c <> hash -> c <> backslash ->
  strip_comment_spec (a +:+ String c (String hash b))
  = a +:+ String c EmptyString.
Proof.
  intros Ha Hch Hcb.
  induction a as [|x a IH].
  - cbn [String.append]. rewrite strip_other by assumption.
    rewrite strip_hash. reflexivity.
  - apply has_byte_cons_false in Ha as [Hx Ha].
    specialize (IH Ha). cbn [String.append].
    destruct (Ascii.eqb_spec x backslash) as [->|Hb].
    + destruct a as [|d a']; cbn [String.append] in *.
      * rewrite strip_backslash_other by exact Hch. rewrite IH. reflexivity.
      * apply has_byte_cons_false in Ha as [Hd _].
        rewrite strip_backslash_other by exact Hd. rewrite IH. reflexivity.
    + rewrite strip_other by assumption. rewrite IH. reflexivity.
Qed.

End CommentRemoval.

Section RemoveComments.

(** The loop invariant: [line] is [seen +:+ todo] with [prevcmt] the
    length of [seen]; [seen] is empty (first iteration, on a line that does
    not start with [#]) or ends with the [#] that was just unescaped. *)
Lemma removeComments_loop_spec (fuel : nat) (seen todo : string) :
  String.length todo < fuel ->
  (seen = EmptyString /\ HasPrefix todo "#" = false)
  \/ (exists d, seen = d +:+ String hash EmptyString) ->
  removeComments_loop fuel (seen +:+ todo) (String.length seen)
  = Ok (seen +:+ strip_comment_spec todo).
Proof.
  revert seen todo.
  induction fuel as [|fuel IH]; intros seen todo Hfuel Hdone; [lia|].
  cbn [removeComments_loop]. rewrite drop_append.
  destruct (IndexByte hash todo) as [k|] eqn:Hi.
  2: { apply IndexByte_None in Hi. rewrite (strip_no_hash _ Hi). reflexivity. }
  apply IndexByte_Some in Hi as (a & b & -> & <- & Ha).
  destruct (string_empty_or_snoc a) as [-> | (a' & c & ->)].
  - (* the [#] is the first byte still to scan *)
    cbn [String.append String.length Nat.add].
    destruct Hdone as [[-> Hp] | [d ->]]; [simpl in Hp; discriminate Hp|].
    rewrite length_append. cbn [String.length].
    rewrite Nat.add_1_r. cbn [byte_before].
    rewrite (append_assoc d). cbn [String.append].
    rewrite get_append. cbn [obind].
    change (Ascii.eqb hash backslash) with false. cbv iota.
    rewrite take_append_S, strip_hash, append_nil_r. reflexivity.
  - (* some byte [c] stands before the [#] *)
    rewrite has_byte_append in Ha. apply orb_false_elim in Ha as [Ha' Hc].
    apply has_byte_cons_false in Hc as [Hc _].
    assert (Hline : seen +:+ (a' +:+ String c EmptyString) +:+ String hash b
                    = (seen +:+ a') +:+ String c (String hash b)).
    { rewrite !append_assoc. reflexivity. }
    assert (Hcmt : String.length (a' +:+ String c EmptyString) + String.length seen
                   = S (String.length (seen +:+ a'))).
    { rewrite !length_append. cbn [String.length]. lia. }
    rewrite Hline, Hcmt. cbn [byte_before]. rewrite get_append. cbn [obind].
    destruct (Ascii.eqb_spec c backslash) as [->|Hcb].
    + rewrite Nat.sub_succ, Nat.sub_0_r, take_append, drop_append_S.
      assert (Hnew : (seen +:+ a') +:+ String hash b
                     = ((seen +:+ a') +:+ String hash EmptyString) +:+ b).
      { rewrite !append_assoc. reflexivity. }
      assert (Hlen : S (String.length (seen +:+ a'))
                     = String.length ((seen +:+ a') +:+ String hash EmptyString)).
      { rewrite !length_append. cbn [String.length]. lia. }
      rewrite Hnew, Hlen. rewrite IH.
      * rewrite append_assoc, (append_assoc a'). cbn [String.append].
        rewrite strip_escaped by exact Ha'.
        rewrite !append_assoc. reflexivity.
      * rewrite !length_append in Hfuel. cbn [String.length] in Hfuel. lia.
      * right. eexists. reflexivity.
    + rewrite take_append_S.
      rewrite (append_assoc a'). cbn [String.append].
      rewrite strip_unescaped by assumption.
      rewrite !append_assoc. reflexivity.
Qed.

Lemma removeComments_spec (line : string) :
  HasPrefix line "#" = false ->
  removeComments line = Ok (strip_comment_spec line).
Proof.
  intros H. unfold removeComments.
  apply (removeComments_loop_spec (S (String.length line)) EmptyString line);
    [lia | left; auto].
Qed.

Lemma removeComments_hash_first (line : string) :
  removeComments (String hash line) = Panic.
Proof. reflexivity. Qed.

End RemoveComments.

Section CollapseWhitespace.

Lemma visible_skip (c : ascii) (nl : string) :
  (IsSpace c || Ascii.eqb c backslash)%bool = true ->
  visible (nl +:+ String c EmptyString) = visible nl.
Proof.
  intros H. rewrite visible_append. cbn [visible]. rewrite H.
  apply append_nil_r.
Qed.

(** Collapsing adds, drops or keeps only white space and backslashes. *)
Lemma collapseWhitespace_loop_visible (line rest : string) :
  forall (i : nat) (nl : string) (prevSpace : bool) (r : string),
    collapseWhitespace_ascii_loop line i rest nl prevSpace = Ok r ->
    visible r = visible nl +:+ visible rest.
Proof.
  induction rest as [|char rest IH]; intros i nl prevSpace r H.
  - injection H as <-. symmetry. apply append_nil_r.
  - cbn [collapseWhitespace_ascii_loop] in H. cbn [visible].
    destruct (Ascii.eqb char backslash) eqn:Hb.
    + rewrite orb_true_r.
      destruct (byte_before line i) as [p| | |]; try discriminate H.
      cbn [obind] in H. apply IH in H. rewrite H. f_equal.
      destruct (Ascii.eqb p backslash); [|reflexivity].
      apply visible_skip. rewrite orb_true_r. reflexivity.
    + rewrite orb_false_r. destruct (IsSpace char) eqn:Hs.
      * destruct prevSpace.
        -- destruct (byte_before line i) as [p| | |]; try discriminate H.
           cbn [obind] in H. apply IH in H. rewrite H. f_equal.
           destruct (Ascii.eqb p backslash); [|reflexivity].
           apply visible_skip. rewrite Hs. reflexivity.
        -- apply IH in H. rewrite H. f_equal.
           destruct (Nat.eqb i (String.length line - 1)); [reflexivity|].
           apply visible_skip. reflexivity.
      * apply IH in H. rewrite H, visible_append. cbn [visible].
        rewrite Hs, Hb. cbn [orb]. rewrite append_assoc. reflexivity.
Qed.

(** Past the first byte the loop always has a byte before the current one. *)
Lemma collapseWhitespace_loop_total (line rest : string) :
  forall (i : nat) (nl : string) (prevSpace : bool),
    0 < i -> i + String.length rest = String.length line ->
    exists r, collapseWhitespace_ascii_loop line i rest nl prevSpace = Ok r.
Proof.
  induction rest as [|char rest IH]; intros i nl prevSpace Hi Hlen.
  - eexists. reflexivity.
  - cbn [String.length] in Hlen. cbn [collapseWhitespace_ascii_loop].
    destruct i as [|j]; [lia|].
    destruct (get_lt line j) as [p Hp]; [lia|].
    cbn [byte_before]. rewrite Hp. cbn [obind].
    destruct (Ascii.eqb char backslash); [apply IH; lia|].
    destruct (IsSpace char); [destruct prevSpace|]; apply IH; lia.
Qed.

Lemma collapseWhitespace_total (line : string) :
  HasPrefix line (String backslash EmptyString) = false ->
  exists r, collapseWhitespace_ascii line = Ok r.
Proof.
  destruct line as [|c rest]; [intros _; eexists; reflexivity|].
  cbn [HasPrefix]. rewrite andb_true_r, Ascii.eqb_sym. intros Hc.
  unfold collapseWhitespace_ascii. cbn [collapseWhitespace_ascii_loop]. rewrite Hc.
  destruct (IsSpace c); apply collapseWhitespace_loop_total;
    cbn [String.length]; lia.
Qed.

End CollapseWhitespace.

(** C8: the line [\a \# b] holds an escaped [#].  Comment removal turns it
    into a literal [#] and keeps the rest of the line, but the text then
    starts with a backslash, [collapseWhitespace] reads [line[-1]] and
    panics: no logical text comes out and reading the file panics. *)
Theorem escaped_hash_behind_leading_backslash_panics :
  removeComments "\a \# b" = Ok "\a # b"
  /\ collapseWhitespace "\a # b" = Panic
  /\ readFile fs_backslash_hash 1 "main" = Panic.
Proof.
  split; [vm_compute; reflexivity|].
  split; [reflexivity|]. vm_compute. reflexivity.
Qed.

(** X26: on every line that does not start with [#] (the lines [readFile]
    passes it) [removeComments] returns, and what it returns is the scan the
    specification describes: an escaped [#] after a stretch without [#]
    becomes a literal [#] standing where the backslash stood, with the scan
    continuing behind it, and the first [#] that no backslash precedes ends
    the line.  A comment line leaves the loop state of [readFile] as it is
    but for the line counter. *)
Theorem removeComments_refines_spec :
  (forall sourced raw lines i no,
     HasPrefix (TrimSpace raw) "#" = true ->
     readFile_step sourced raw (lines, i, no) = Ok (lines, i, S no))
  /\ (forall line,
        HasPrefix line "#" = false ->
        removeComments line = Ok (strip_comment_spec line))
  /\ (forall a b,
        has_byte hash a = false ->
        removeComments (a +:+ String backslash (String hash b))
        = Ok (a +:+ String hash (strip_comment_spec b)))
  /\ (forall a b c,
        has_byte hash a = false -> c <> hash -> c <> backslash ->
        removeComments (a +:+ String c (String hash b))
        = Ok (a +:+ String c EmptyString)).
Proof.
  split; [|split; [|split]].
  - intros sourced raw lines i no H. unfold readFile_step.
    rewrite H, orb_true_r. reflexivity.
  - exact removeComments_spec.
  - intros a b Ha. rewrite removeComments_spec.
    + rewrite (strip_escaped a b Ha). reflexivity.
    + destruct a as [|x a]; [reflexivity|].
      apply has_byte_cons_false in Ha as [Hx _]. apply Ascii.eqb_neq in Hx.
      change hash with "#"%char in Hx.
      cbn [String.append HasPrefix]. rewrite Ascii.eqb_sym, Hx. reflexivity.
  - intros a b c Ha Hch Hcb. rewrite removeComments_spec.
    + rewrite (strip_unescaped a b c Ha Hch Hcb). reflexivity.
    + destruct a as [|x a]; cbn [String.append HasPrefix].
      * apply Ascii.eqb_neq in Hch. change hash with "#"%char in Hch.
        rewrite Ascii.eqb_sym, Hch. reflexivity.
      * apply has_byte_cons_false in Ha as [Hx _]. apply Ascii.eqb_neq in Hx.
        change hash with "#"%char in Hx.
        rewrite Ascii.eqb_sym, Hx. reflexivity.
Qed.

Lemma removeComments_refines_spec_witness :
  removeComments "a 1 \# x # y" = Ok "a 1 # x ".
Proof.
  refine (eq_trans
    (proj1 (proj2 (proj2 removeComments_refines_spec)) "a 1 " " x # y" _) _).
  - vm_compute. reflexivity.
  - vm_compute. reflexivity.
Defined.

(** ** The recursion bound *)

Section Fuel.

Lemma readFile_step_extends src1 src2 (raw : string) (st : loop_state) :
  extends src1 src2 ->
  readFile_step src1 raw st <> OutOfFuel ->
  readFile_step src2 raw st = readFile_step src1 raw st.
Proof.
  intros Hext. destruct st as [[lines i] no]. unfold readFile_step.
  destruct (String.eqb _ _ || HasPrefix _ _)%bool; [reflexivity|].
  destruct (obind (removeComments _) _) as [text| | |]; cbn [obind];
    try reflexivity.
  destruct (match raw with EmptyString => false | String c _ => IsSpace c end);
    [reflexivity|].
  destruct (HasPrefix text "source "); [|reflexivity].
  intros Hne. rewrite (Hext (drop 7 text)); [reflexivity|].
  intros Hoof. apply Hne. rewrite Hoof. reflexivity.
Qed.

Lemma readFile_loop_extends src1 src2 (input : list string) :
  extends src1 src2 ->
  forall st, readFile_loop src1 input st <> OutOfFuel ->
             readFile_loop src2 input st = readFile_loop src1 input st.
Proof.
  intros Hext. induction input as [|raw input IH]; intros st Hne;
    cbn [readFile_loop] in *; [reflexivity|].
  rewrite (readFile_step_extends src1 src2 raw st Hext).
  - destruct (readFile_step src1 raw st); cbn [obind] in *; auto.
  - intros Hoof. apply Hne. rewrite Hoof. reflexivity.
Qed.

(** More fuel does not change a result that was reached. *)
Lemma readFile_fuel_S (fs : filesystem) (fuel : nat) :
  extends (readFile fs fuel) (readFile fs (S fuel)).
Proof.
  induction fuel as [|fuel IH]; intros file Hne; [contradiction Hne; reflexivity|].
  change (readFile fs (S (S fuel)) file)
    with (match fs file with
          | OpenErr e => Err e
          | OpenOk content =>
              do st <- readFile_loop (readFile fs (S fuel)) (ScanLines content)
                         ([], 0, 0);
              Ok (st.1.1)
          end).
  change (readFile fs (S fuel) file)
    with (match fs file with
          | OpenErr e => Err e
          | OpenOk content =>
              do st <- readFile_loop (readFile fs fuel) (ScanLines content)
                         ([], 0, 0);
              Ok (st.1.1)
          end) in Hne |- *.
  destruct (fs file) as [content|e]; [|reflexivity].
  rewrite (readFile_loop_extends _ _ (ScanLines content) IH); [reflexivity|].
  intros Hoof. apply Hne. rewrite Hoof. reflexivity.
Qed.

Lemma readFile_fuel_mono (fs : filesystem) (fuel more : nat) (file : string) :
  readFile fs fuel file <> OutOfFuel ->
  readFile fs (more + fuel) file = readFile fs fuel file.
Proof.
  intros Hne. induction more as [|more IH]; [reflexivity|].
  change (S more + fuel) with (S (more + fuel)).
  rewrite (readFile_fuel_S fs (more + fuel) file); rewrite IH; auto.
Qed.

End Fuel.

(** * Further properties of the package and of its caller *)

(** ** [FindConfig] *)

Lemma FindConfig_loop_first (stat : string -> bool) (locations : list string) :
  (FindConfig_loop stat locations = EmptyString
   /\ Forall (fun l => stat l = false) locations)
  \/ (exists before after,
        locations = before ++ FindConfig_loop stat locations :: after
        /\ Forall (fun l => stat l = false) before
        /\ stat (FindConfig_loop stat locations) = true).
Proof.
  induction locations as [|l locations IH]; cbn [FindConfig_loop].
  - left. split; [reflexivity | constructor].
  - destruct (stat l) eqn:Hl.
    + right. exists [], locations. repeat split; [constructor | exact Hl].
    + destruct IH as [[He Hall] | (before & after & Heq & Hall & Hs)].
      * left. split; [exact He | constructor; assumption].
      * right. exists (l :: before), after. repeat split.
        -- cbn [app]. rewrite <- Heq. reflexivity.
        -- constructor; assumption.
        -- exact Hs.
Qed.

(** X1: [FindConfig] returns the first of its candidate locations that
    exists, in the order XDG_CONFIG, HOME, /etc, /usr/local/etc,
    /usr/pkg/etc, current directory: either no candidate exists and the
    result is empty, or the result is a candidate that exists and no
    candidate before it does. *)
Theorem FindConfig_first_existing (getenv : string -> string)
    (stat : string -> bool) (file : string) :
  (FindConfig getenv stat file = EmptyString
   /\ Forall (fun l => stat l = false) (FindConfig_locations getenv file))
  \/ (exists before after,
        FindConfig_locations getenv file
        = before ++ FindConfig getenv stat file :: after
        /\ Forall (fun l => stat l = false) before
        /\ stat (FindConfig getenv stat file) = true).
Proof. apply FindConfig_loop_first. Qed.

Lemma TrimLeft_slashes (slashes file : string) :
  Forall (fun c => c = "/"%char) (list_ascii_of_string slashes) ->
  TrimLeft (slashes +:+ file) "/" = TrimLeft file "/".
Proof.
  induction slashes as [|c slashes IH]; cbn [list_ascii_of_string]; intros H.
  - reflexivity.
  - inversion H as [|? ? Hc Hrest]; subst. cbn [String.append].
    unfold TrimLeft in *. cbn [dropWhile has_byte Ascii.eqb Bool.eqb orb].
    apply IH. exact Hrest.
Qed.

(** X2: leading slashes of the file name do not count: [FindConfig] looks
    the name up below its candidate directories however many slashes it
    starts with, never as an absolute path. *)
Theorem FindConfig_ignores_leading_slashes (getenv : string -> string)
    (stat : string -> bool) (slashes file : string) :
  Forall (fun c => c = "/"%char) (list_ascii_of_string slashes) ->
  FindConfig getenv stat (slashes +:+ file) = FindConfig getenv stat file.
Proof.
  intros H. unfold FindConfig, FindConfig_locations.
  rewrite (TrimLeft_slashes slashes file H). reflexivity.
Qed.

Lemma FindConfig_ignores_leading_slashes_witness :
  FindConfig (fun _ => EmptyString) (fun l => String.eqb l "/etc/passwd")
    "///etc/passwd"
  = FindConfig (fun _ => EmptyString) (fun l => String.eqb l "/etc/passwd")
      "etc/passwd".
Proof.
  apply (FindConfig_ignores_leading_slashes _ _ "///" "etc/passwd").
  repeat constructor.
Defined.

(** ** The registry *)



(** X7: [Parse] handles the logical lines in order and stops at the first
    line that fails: what the lines before it stored stays stored, and the
    lines after it are not looked at. *)
Theorem Parse_loop_app (Camelize Pluralize : string -> string)
    (assignable : Value -> string -> bool) (fields : gmap string string)
    (typeHandlers : gmap string (list TypeHandler)) (file : string)
    (handlers : Handlers) (pre post : list LogicalLine) (st : store) :
  Parse_loop Camelize Pluralize assignable fields typeHandlers file handlers
    (pre ++ post) st
  = match Parse_loop Camelize Pluralize assignable fields typeHandlers file
            handlers pre st with
    | (st1, Ok _) =>
        Parse_loop Camelize Pluralize assignable fields typeHandlers file
          handlers post st1
    | (st1, r) => (st1, r)
    end.
Proof. apply Parse_loop_app_aux. Qed.

(** ** Single lines of [Parse] *)

(** X4: a type registered with no converter at all makes [Parse] panic on
    a line for a field of that type that has no custom handler, whatever
    the handlers map holds for other fields: the loop of
    [setFromTypeHandler] leaves the nil value, which [reflect] refuses to
    set. *)
Theorem Parse_loop_empty_chain_panics (Camelize Pluralize : string -> string)
    (assignable : Value -> string -> bool) (fields : gmap string string)
    (typeHandlers : gmap string (list TypeHandler)) (file : string)
    (handlers : Handlers) (no text : string)
    (rest : list LogicalLine) (st : store) (fieldName T : string) :
  fieldNameFromKey Camelize Pluralize fields (hd EmptyString (Split text space))
  = Ok fieldName ->
  fields !! fieldName = Some T ->
  (forall m, handlers = Some m -> m !! fieldName = None) ->
  assignable VNil T = false ->
  Parse_loop Camelize Pluralize assignable fields
    (RegisterType T [] typeHandlers) file handlers ((no, text) :: rest) st
  = (st, Panic).
Proof.
  intros Hf HT Hh Ha. cbn [Parse_loop]. rewrite Hf, HT.
  unfold setFromHandler, setFromTypeHandler, RegisterType.
  rewrite lookup_insert_eq. cbn [typeHandler_loop]. rewrite Ha.
  destruct handlers as [m|]; [rewrite (Hh m eq_refl)|]; reflexivity.
Qed.

Lemma Parse_loop_empty_chain_witness :
  Parse_loop Camelize_model Pluralize_model identical_type config_fields
    (RegisterType "string" [] ∅) "config" config_handlers
    [("1", "user martin"); ("2", "key-file k.pem")] ∅
  = (∅, Panic).
Proof.
  apply (Parse_loop_empty_chain_panics Camelize_model Pluralize_model
           identical_type config_fields ∅ "config" config_handlers
           "1" "user martin" [("2", "key-file k.pem")] ∅ "User" "string").
  - vm_compute. reflexivity.
  - vm_compute. reflexivity.
  - intros m [= <-]. vm_compute. reflexivity.
  - reflexivity.
Defined.

(** X8: a line whose field exists but has neither a custom handler nor a
    registered type fails with "don't know how to set fields of the type",
    naming the field's type, and stores nothing. *)
Theorem Parse_loop_unsupported_type (Camelize Pluralize : string -> string)
    (assignable : Value -> string -> bool) (fields : gmap string string)
    (typeHandlers : gmap string (list TypeHandler)) (file : string)
    (handlers : Handlers) (no text : string) (rest : list LogicalLine)
    (st : store) (fieldName T : string) :
  fieldNameFromKey Camelize Pluralize fields (hd EmptyString (Split text space))
  = Ok fieldName ->
  fields !! fieldName = Some T ->
  (forall m, handlers = Some m -> m !! fieldName = None) ->
  typeHandlers !! T = None ->
  Parse_loop Camelize Pluralize assignable fields typeHandlers file handlers
    ((no, text) :: rest) st
  = (st, Err (fmterr file no (hd EmptyString (Split text space))
                ("don't know how to set fields of the type " +:+ T))).
Proof.
  intros Hf HT Hh Hth. cbn [Parse_loop]. rewrite Hf, HT.
  unfold setFromHandler, setFromTypeHandler. rewrite Hth.
  destruct handlers as [m|]; [rewrite (Hh m eq_refl)|]; reflexivity.
Qed.

Lemma Parse_loop_unsupported_type_witness :
  Parse_loop Camelize_model Pluralize_model identical_type config_fields
    string_registry "config" None [("7", "records example.com")] ∅
  = (∅, Err "config line 7: error parsing records: don't know how to set fields of the type map[string][]string").
Proof.
  apply (Parse_loop_unsupported_type Camelize_model Pluralize_model
           identical_type config_fields string_registry "config" None
           "7" "records example.com" [] ∅ "Records" "map[string][]string").
  - vm_compute. reflexivity.
  - vm_compute. reflexivity.
  - discriminate.
  - vm_compute. reflexivity.
Defined.

(** X9: a line whose key names no field, neither as it is normalized nor in
    the plural, fails with "unknown option", naming both names tried; nothing
    is stored and no handler or converter runs. *)
Theorem Parse_loop_unknown_option (Camelize Pluralize : string -> string)
    (assignable : Value -> string -> bool) (fields : gmap string string)
    (typeHandlers : gmap string (list TypeHandler)) (file : string)
    (handlers : Handlers) (no text : string) (rest : list LogicalLine)
    (st : store) :
  let key := hd EmptyString (Split text space) in
  fields !! acronymize Camelize key = None ->
  fields !! Pluralize (acronymize Camelize key) = None ->
  Parse_loop Camelize Pluralize assignable fields typeHandlers file handlers
    ((no, text) :: rest) st
  = (st, Err (fmterr file no key
                ("unknown option (field " +:+ acronymize Camelize key +:+ " or "
                 +:+ Pluralize (acronymize Camelize key) +:+ " is missing)"))).
Proof.
  intros key H1 H2. cbn [Parse_loop]. fold key.
  rewrite (fieldNameFromKey_unknown Camelize Pluralize fields key H1 H2).
  reflexivity.
Qed.

Lemma Parse_loop_unknown_option_witness :
  Parse_loop Camelize_model Pluralize_model identical_type config_fields
    string_registry "config" config_handlers
    [("2", "bogus value"); ("3", "user martin")] ∅
  = (∅, Err "config line 2: error parsing bogus: unknown option (field Bogus or Bogus is missing)").
Proof.
  apply (Parse_loop_unknown_option Camelize_model Pluralize_model
           identical_type config_fields string_registry "config"
           config_handlers "2" "bogus value" [("3", "user martin")] ∅).
  - vm_compute. reflexivity.
  - vm_compute. reflexivity.
Defined.

(** ** Converter chains as they run *)

(** X5: when every converter of a chain succeeds on the line's tokens, the
    field is set to the value of the last converter; the values of the
    converters before it are dropped. *)
Theorem setFromTypeHandler_last_value (assignable : Value -> string -> bool)
    (typeHandlers : gmap string (list TypeHandler)) (fieldName T : string)
    (before : list TypeHandler) (h : TypeHandler) (value : list string)
    (v w : Value) (st : store) :
  typeHandlers !! T = Some (before ++ [h]) ->
  typeHandler_loop before value VNil = Ok w ->
  h value = Ok v ->
  assignable v T = true ->
  setFromTypeHandler assignable typeHandlers fieldName T value st
  = (<[fieldName := v]> st, (true, Ok tt)).
Proof. apply setFromTypeHandler_assigns_last. Qed.

Lemma setFromTypeHandler_last_value_witness :
  setFromTypeHandler identical_type string_registry "User" "string" ["martin"] ∅
  = (<["User" := VString "martin"]> ∅, (true, Ok tt)).
Proof.
  apply (setFromTypeHandler_last_value identical_type string_registry "User"
           "string" [OneValue] first_token ["martin"] (VString "martin")
           (VStrings ["martin"]) ∅); reflexivity.
Defined.

(** X6: when a converter of a chain fails on the line's tokens and those
    before it succeeded, [setFromTypeHandler] returns that error, the
    converters after it have no effect on the result, and the store is
    unchanged. *)
Theorem setFromTypeHandler_stops_at_error (assignable : Value -> string -> bool)
    (typeHandlers : gmap string (list TypeHandler)) (fieldName T : string)
    (before after : list TypeHandler) (h : TypeHandler) (value : list string)
    (e : string) (w : Value) (st : store) :
  typeHandlers !! T = Some (before ++ h :: after) ->
  typeHandler_loop before value VNil = Ok w ->
  h value = Err e ->
  setFromTypeHandler assignable typeHandlers fieldName T value st
  = (st, (true, Err e)).
Proof. apply setFromTypeHandler_first_error. Qed.

Lemma setFromTypeHandler_stops_at_error_witness :
  setFromTypeHandler identical_type
    (RegisterType "string" [upper_tokens; NValues 2 3; first_token] ∅)
    "User" "string" ["martin"] ∅
  = (∅, (true, Err "must have more than 2 values (has: 1)")).
Proof.
  apply (setFromTypeHandler_stops_at_error identical_type
           (RegisterType "string" [upper_tokens; NValues 2 3; first_token] ∅)
           "User" "string" [upper_tokens] [first_token] (NValues 2 3)
           ["martin"] "must have more than 2 values (has: 1)"
           (VStrings ["MARTIN"]) ∅); reflexivity.
Defined.

(** ** Files without [source] directives *)

Section PlainFiles.

Variable sourced : string -> outcome (list LogicalLine).

Lemma readFile_step_skipped (raw : string) (lines : list LogicalLine)
    (i no : nat) :
  skipped raw = true ->
  readFile_step sourced raw (lines, i, no) = Ok (lines, i, S no).
Proof.
  unfold skipped, readFile_step. intros H. rewrite H. reflexivity.
Qed.

Lemma readFile_loop_skipped (input : list string) (lines : list LogicalLine)
    (i no : nat) :
  Forall (fun raw => skipped raw = true) input ->
  readFile_loop sourced input (lines, i, no)
  = Ok (lines, i, length input + no).
Proof.
  intros Hall. revert no.
  induction Hall as [|raw input Hraw Hall IH]; intros no; [reflexivity|].
  cbn [readFile_loop]. rewrite (readFile_step_skipped raw lines i no Hraw).
  cbn [obind]. rewrite IH. cbn [length]. f_equal. f_equal. lia.
Qed.

(** The three kinds of line that is neither a [source] directive nor
    unreadable. *)
Lemma readFile_step_plain_file (raw : string) (lines : list LogicalLine)
    (i no : nat) :
  readable raw = true ->
  source_directive raw = None ->
  skipped raw = false ->
  exists text,
    logical_text (TrimSpace raw) = Ok text
    /\ (continuation raw = false ->
        readFile_step sourced raw (lines, i, no)
        = Ok (lines ++ [(itoa (Z.of_nat (S no)), text)], S i, S no)).
Proof.
  unfold readable, source_directive, continuation, readFile_step.
  intros Hr Hsrc Hskip. rewrite Hskip in Hr. cbn [orb] in Hr.
  unfold skipped in Hskip. apply orb_false_elim in Hskip as [He Hh].
  rewrite He, Hh in *. rewrite !orb_false_r in Hsrc. cbn [orb negb].
  unfold logical_text in *.
  destruct (obind (removeComments _) _) as [text| | |]; try discriminate Hr.
  exists text. split; [reflexivity|].
  rewrite andb_true_r. intros Hind. rewrite Hind in *. cbn [obind].
  destruct (HasPrefix text "source "); [discriminate Hsrc | reflexivity].
Qed.

Lemma readFile_step_keeps_count (raw : string) (lines : list LogicalLine)
    (no : nat) :
  readable raw = true ->
  source_directive raw = None ->
  0 < length lines ->
  exists lines',
    readFile_step sourced raw (lines, length lines, no)
    = Ok (lines', length lines', S no)
    /\ 0 < length lines'.
Proof.
  intros Hr Hsrc Hpos.
  destruct (skipped raw) eqn:Hskip.
  { exists lines. rewrite (readFile_step_skipped _ _ _ _ Hskip). auto. }
  destruct (readFile_step_plain_file raw lines (length lines) no Hr Hsrc Hskip)
    as (text & Htext & Hplain).
  destruct (continuation raw) eqn:Hc.
  - rewrite (readFile_step_continuation sourced raw text _ _ no Hc Htext).
    destruct (Nat.eqb_spec (length lines) 0) as [E|_]; [lia|].
    destruct (lookup_lt_is_Some_2 lines (length lines - 1)) as [[n t] Hl]; [lia|].
    rewrite Hl.
    exists (<[length lines - 1 := (n, t +:+ " " +:+ text)]> lines).
    rewrite length_insert. split; [reflexivity | exact Hpos].
  - rewrite (Hplain eq_refl).
    exists (lines ++ [(itoa (Z.of_nat (S no)), text)]).
    rewrite length_app. cbn [length]. rewrite Nat.add_1_r.
    split; [reflexivity | lia].
Qed.

Lemma readFile_loop_keeps_count (input : list string) :
  Forall (fun raw => readable raw = true /\ source_directive raw = None) input ->
  forall (lines : list LogicalLine) (no : nat),
    0 < length lines ->
    exists st, readFile_loop sourced input (lines, length lines, no) = Ok st.
Proof.
  induction 1 as [|raw input [Hr Hsrc] Hall IH]; intros lines no Hpos.
  - eexists. reflexivity.
  - cbn [readFile_loop].
    destruct (readFile_step_keeps_count raw lines no Hr Hsrc Hpos)
      as (lines' & -> & Hpos').
    cbn [obind]. apply IH. exact Hpos'.
Qed.

Lemma readFile_loop_from_start (input : list string) :
  Forall (fun raw => readable raw = true /\ source_directive raw = None) input ->
  forall no,
    if first_content_indented input
    then readFile_loop sourced input ([], 0, no)
         = Err "first line can't be indented"
    else exists st, readFile_loop sourced input ([], 0, no) = Ok st.
Proof.
  induction 1 as [|raw input [Hr Hsrc] Hall IH]; intros no;
    cbn [first_content_indented].
  - eexists. reflexivity.
  - cbn [readFile_loop]. destruct (skipped raw) eqn:Hskip.
    + rewrite (readFile_step_skipped _ _ _ _ Hskip). cbn [obind]. apply IH.
    + destruct (readFile_step_plain_file raw [] 0 no Hr Hsrc Hskip)
        as (text & Htext & Hplain).
      destruct (continuation raw) eqn:Hc.
      * rewrite (readFile_step_first_indented sourced raw text no Hc Htext).
        reflexivity.
      * rewrite (Hplain eq_refl). cbn [obind app].
        apply (readFile_loop_keeps_count input Hall
                 [(itoa (Z.of_nat (S no)), text)] (S no)).
        cbn [length]. lia.
Qed.

Lemma map_fst_insert (lines : list LogicalLine) (k : nat) (n t t' : string) :
  lines !! k = Some (n, t) ->
  map fst (<[k := (n, t')]> lines) = map fst lines.
Proof.
  revert k. induction lines as [|x lines IH]; intros k H; [reflexivity|].
  destruct k as [|k]; simpl in H |- *.
  - injection H as ->. reflexivity.
  - f_equal. apply IH. exact H.
Qed.

Lemma readFile_step_numbers (raw : string) (lines lines' : list LogicalLine)
    (i no i' no' : nat) :
  source_directive raw = None ->
  readFile_step sourced raw (lines, i, no) = Ok (lines', i', no') ->
  no' = S no
  /\ map fst lines'
     = map fst lines
       ++ (if (skipped raw || continuation raw)%bool then []
           else [itoa (Z.of_nat (S no))]).
Proof.
  unfold source_directive, skipped, continuation, logical_text, readFile_step.
  intros Hsrc Hstep.
  destruct (String.eqb (TrimSpace raw) EmptyString).
  { cbn [orb] in *. injection Hstep as <- <- <-. rewrite app_nil_r. auto. }
  destruct (HasPrefix (TrimSpace raw) "#").
  { cbn [orb] in *. injection Hstep as <- <- <-. rewrite app_nil_r. auto. }
  cbn [orb negb] in *. rewrite !orb_false_r in Hsrc. rewrite andb_true_r.
  destruct (obind (removeComments _) _) as [text| | |]; cbn [obind] in Hstep;
    try discriminate Hstep.
  destruct (match raw with EmptyString => false | String c _ => IsSpace c end).
  - destruct (Nat.eqb i 0); [discriminate Hstep|].
    destruct (lines !! (i - 1)) as [[n t]|] eqn:Hl; [|discriminate Hstep].
    injection Hstep as <- <- <-.
    rewrite (map_fst_insert lines (i - 1) n t _ Hl), app_nil_r. auto.
  - destruct (HasPrefix text "source "); [discriminate Hsrc|].
    injection Hstep as <- <- <-. rewrite map_app. auto.
Qed.

Lemma readFile_loop_numbers (input : list string) :
  Forall (fun raw => source_directive raw = None) input ->
  forall (lines lines' : list LogicalLine) (i no i' no' : nat),
    readFile_loop sourced input (lines, i, no) = Ok (lines', i', no') ->
    map fst lines'
    = map fst lines
      ++ map (fun k => itoa (Z.of_nat k)) (plain_positions no input).
Proof.
  induction 1 as [|raw input Hsrc Hall IH]; intros lines lines' i no i' no' H.
  - injection H as <- <- <-. cbn. rewrite app_nil_r. reflexivity.
  - cbn [readFile_loop] in H.
    destruct (readFile_step sourced raw (lines, i, no))
      as [[[l1 i1] n1]| | |] eqn:Hstep; try discriminate H.
    cbn [obind] in H.
    destruct (readFile_step_numbers raw lines l1 i no i1 n1 Hsrc Hstep)
      as [-> Hl1].
    rewrite (IH _ _ _ _ _ _ H), Hl1. cbn [plain_positions].
    destruct (skipped raw || continuation raw)%bool.
    + rewrite app_nil_r. reflexivity.
    + rewrite <- app_assoc. reflexivity.
Qed.

End PlainFiles.

(** X10: a file that holds only empty lines and comment lines parses without
    error and leaves the destination as it was. *)
Theorem Parse_blank_file (Camelize Pluralize : string -> string)
    (assignable : Value -> string -> bool) (fields : gmap string string)
    (typeHandlers : gmap string (list TypeHandler)) (fs : filesystem)
    (fuel : nat) (file content : string) (handlers : Handlers) (st : store) :
  fs file = OpenOk content ->
  Forall (fun raw => skipped raw = true) (ScanLines content) ->
  readFile fs (S fuel) file = Ok []
  /\ Parse Camelize Pluralize assignable fields typeHandlers fs (S fuel) file
       handlers st = (st, Ok tt).
Proof.
  intros Hfile Hall.
  assert (Hread : readFile fs (S fuel) file = Ok []).
  { cbn [readFile]. rewrite Hfile.
    rewrite (readFile_loop_skipped _ _ [] 0 0 Hall). reflexivity. }
  split; [exact Hread|]. unfold Parse. rewrite Hread. reflexivity.
Qed.

Lemma Parse_blank_file_witness :
  Parse Camelize_model Pluralize_model identical_type config_fields
    string_registry
    (files [("config", unlines ["# transip-dynamic"; ""; "   # nothing yet"])])
    1 "config" config_handlers ∅
  = (∅, Ok tt).
Proof.
  apply (proj2 (Parse_blank_file Camelize_model Pluralize_model identical_type
                  config_fields string_registry _ 0 "config"
                  (unlines ["# transip-dynamic"; ""; "   # nothing yet"])
                  config_handlers ∅ eq_refl
                  ltac:(repeat constructor))).
Defined.

(** X11: in a file without [source] directives whose lines all have a
    logical text (none starts, after comment removal, with a backslash),
    [readFile] never panics: it returns the error "first line can't be
    indented" when the first line that is not skipped is indented, and
    logical lines otherwise. *)
Theorem readFile_without_source (fs : filesystem) (fuel : nat)
    (file content : string) :
  fs file = OpenOk content ->
  Forall (fun raw => readable raw = true /\ source_directive raw = None)
    (ScanLines content) ->
  if first_content_indented (ScanLines content)
  then readFile fs (S fuel) file = Err "first line can't be indented"
  else exists lines, readFile fs (S fuel) file = Ok lines.
Proof.
  intros Hfile Hall. cbn [readFile]. rewrite Hfile.
  pose proof (readFile_loop_from_start (readFile fs fuel) _ Hall 0) as H.
  destruct (first_content_indented (ScanLines content)).
  - rewrite H. reflexivity.
  - destruct H as [st ->]. eexists. reflexivity.
Qed.

Lemma readFile_without_source_witness :
  exists lines, readFile fs_config 1 "config" = Ok lines.
Proof.
  apply (readFile_without_source fs_config 0 "config"
           (unlines ["user martin"; "key-file  /home/martin/key.pem";
                     "records example.com"; "   www.example.com"]) eq_refl).
  repeat constructor.
Defined.

(** X12: in a file without [source] directives the numbers of the logical
    lines returned are, in order, the 1-based positions of the physical lines
    that are neither skipped nor indented: a continuation line does not
    change the number of the line it is joined to. *)
Theorem readFile_line_numbers (fs : filesystem) (fuel : nat)
    (file content : string) (lines : list LogicalLine) :
  fs file = OpenOk content ->
  Forall (fun raw => source_directive raw = None) (ScanLines content) ->
  readFile fs (S fuel) file = Ok lines ->
  map fst lines
  = map (fun k => itoa (Z.of_nat k)) (plain_positions 0 (ScanLines content)).
Proof.
  intros Hfile Hall. cbn [readFile]. rewrite Hfile.
  destruct (readFile_loop (readFile fs fuel) (ScanLines content) ([], 0, 0))
    as [[[l i] n]| | |] eqn:Hloop; cbn [obind]; try discriminate.
  intros [= <-].
  apply (readFile_loop_numbers _ _ Hall _ _ _ _ _ _ Hloop).
Qed.

Lemma readFile_line_numbers_witness :
  map fst [("1", "user martin"); ("2", "key-file /home/martin/key.pem");
           ("3", "records example.com www.example.com")]
  = map (fun k => itoa (Z.of_nat k))
      (plain_positions 0
         (ScanLines (unlines ["user martin"; "key-file  /home/martin/key.pem";
                              "records example.com"; "   www.example.com"]))).
Proof.
  apply (readFile_line_numbers fs_config 0 "config" _ _ eq_refl).
  - repeat constructor.
  - vm_compute. reflexivity.
Defined.

(** ** What [collapseWhitespace] returns *)

Section Collapsing.

Lemma collapseWhitespace_loop_plain (line rest : string) :
  Forall (fun c => IsSpace c = false /\ c <> backslash)
    (list_ascii_of_string rest) ->
  forall i nl prevSpace,
    collapseWhitespace_ascii_loop line i rest nl prevSpace = Ok (nl +:+ rest).
Proof.
  induction rest as [|c rest IH]; cbn [list_ascii_of_string]; intros H i nl ps.
  - rewrite append_nil_r. reflexivity.
  - inversion H as [|? ? [Hs Hb] Hrest]; subst.
    apply Ascii.eqb_neq in Hb. cbn [collapseWhitespace_ascii_loop].
    rewrite Hb, Hs, (IH Hrest), append_assoc. reflexivity.
Qed.

Lemma get_has_byte (s : string) (j : nat) (p : ascii) :
  String.get j s = Some p -> has_byte p s = true.
Proof.
  revert j. induction s as [|c s IH]; intros j; [discriminate|].
  destruct j as [|j]; cbn [String.get has_byte].
  - intros [= ->]. rewrite Ascii.eqb_refl. reflexivity.
  - intros H. rewrite (IH j H). apply orb_true_r.
Qed.

Lemma byte_before_has_byte (line : string) (i : nat) (p : ascii) :
  byte_before line i = Ok p -> has_byte p line = true.
Proof.
  destruct i as [|j]; cbn [byte_before]; [discriminate|].
  destruct (String.get j line) as [c|] eqn:Hg; [|discriminate].
  intros [= <-]. exact (get_has_byte line j c Hg).
Qed.

Lemma IsSpace_space : IsSpace space = true.
Proof. reflexivity. Qed.

Lemma ends_with_snoc (c d : ascii) (s : string) :
  ends_with c (s +:+ String d EmptyString) = Ascii.eqb d c.
Proof.
  induction s as [|x s IH]; [reflexivity|].
  cbn [String.append]. cbn [ends_with]. rewrite IH.
  destruct (s +:+ String d EmptyString) eqn:E; [|reflexivity].
  destruct s; discriminate E.
Qed.

Lemma single_spaced_snoc_space (b : bool) (s : string) :
  single_spaced b s = true ->
  ends_with space s = false ->
  (s = EmptyString -> b = false) ->
  single_spaced b (s +:+ String space EmptyString) = true.
Proof.
  revert b. induction s as [|x s IH]; intros b Hs He Hb.
  - rewrite (Hb eq_refl). reflexivity.
  - cbn [String.append single_spaced] in *.
    destruct (Ascii.eqb_spec x space) as [->|Hx].
    + apply andb_prop in Hs as [Hnb Hs]. rewrite Hnb. cbn [andb].
      destruct s as [|y s]; [discriminate He|].
      apply IH; [exact Hs | exact He | discriminate].
    + apply andb_prop in Hs as [Hnx Hs]. rewrite Hnx. cbn [andb].
      destruct s as [|y s]; [reflexivity|].
      apply IH; [exact Hs | exact He | discriminate].
Qed.

Lemma single_spaced_snoc_other (b : bool) (s : string) (c : ascii) :
  single_spaced b s = true ->
  IsSpace c = false ->
  single_spaced b (s +:+ String c EmptyString) = true.
Proof.
  revert b. induction s as [|x s IH]; intros b Hs Hc.
  - cbn [String.append single_spaced].
    destruct (Ascii.eqb_spec c space) as [->|_]; [discriminate Hc|].
    rewrite Hc. reflexivity.
  - cbn [String.append single_spaced] in *.
    destruct (Ascii.eqb x space); apply andb_prop in Hs as [H1 Hs];
      rewrite H1, (IH _ Hs Hc); reflexivity.
Qed.

Lemma collapseWhitespace_loop_single_spaced (line rest : string) :
  has_byte backslash line = false ->
  has_byte backslash rest = false ->
  forall i nl prevSpace r,
    single_spaced false nl = true ->
    (prevSpace = false -> ends_with space nl = false) ->
    collapseWhitespace_ascii_loop line i rest nl prevSpace = Ok r ->
    single_spaced false r = true.
Proof.
  intros Hline. induction rest as [|c rest IH]; intros Hrest i nl ps r Hnl Hend H.
  - injection H as <-. exact Hnl.
  - apply has_byte_cons_false in Hrest as [Hc Hrest]. apply Ascii.eqb_neq in Hc.
    cbn [collapseWhitespace_ascii_loop] in H. rewrite Hc in H.
    destruct (IsSpace c) eqn:Hs.
    + destruct ps.
      * destruct (byte_before line i) as [p| | |] eqn:Hp; try discriminate H.
        cbn [obind] in H.
        assert (Hpb : Ascii.eqb p backslash = false).
        { apply Ascii.eqb_neq. intros ->.
          apply byte_before_has_byte in Hp. congruence. }
        rewrite Hpb in H. apply (IH Hrest _ _ _ _ Hnl) in H; [exact H|].
        discriminate.
      * apply (IH Hrest) in H; [exact H | | discriminate].
        destruct (Nat.eqb i (String.length line - 1)); [exact Hnl|].
        apply single_spaced_snoc_space; [exact Hnl | auto | reflexivity].
    + apply (IH Hrest) in H; [exact H | |].
      * apply single_spaced_snoc_other; assumption.
      * intros _. rewrite ends_with_snoc. apply Ascii.eqb_neq. intros ->.
        rewrite IsSpace_space in Hs. discriminate Hs.
Qed.

End Collapsing.

(** On ASCII text the loop over runes is the loop over bytes. *)
Section AsciiText.

Lemma DecodeRune_ascii (c : ascii) (rest : string) :
  (N_of_ascii c <? 128)%N = true ->
  DecodeRune (String c rest) = (N_of_ascii c, 1).
Proof. intros H. unfold DecodeRune. rewrite H. reflexivity. Qed.

Lemma N_of_ascii_eqb (c d : ascii) :
  (N_of_ascii c =? N_of_ascii d)%N = Ascii.eqb c d.
Proof.
  destruct (Ascii.eqb_spec c d) as [->|Hne].
  - apply N.eqb_refl.
  - apply N.eqb_neq. intros E. apply Hne.
    rewrite <- (ascii_N_embedding c), <- (ascii_N_embedding d), E. reflexivity.
Qed.

Lemma EncodeRune_ascii (c : ascii) :
  (N_of_ascii c <? 128)%N = true ->
  EncodeRune (N_of_ascii c) = String c EmptyString.
Proof.
  intros H. apply N.ltb_lt in H. unfold EncodeRune.
  destruct (N.leb_spec (N_of_ascii c) 127) as [_|Hgt]; [|lia].
  rewrite ascii_N_embedding. reflexivity.
Qed.

Lemma collapseWhitespace_loop_ascii (line rest : string) :
  is_ascii rest = true ->
  forall i nl prevSpace,
    collapseWhitespace_loop line i rest 0 nl prevSpace
    = collapseWhitespace_ascii_loop line i rest nl prevSpace.
Proof.
  induction rest as [|c rest IH]; intros H i nl ps; [reflexivity|].
  cbn [is_ascii] in H. apply andb_prop in H as [Hc Hrest].
  cbn [collapseWhitespace_loop collapseWhitespace_ascii_loop].
  rewrite (DecodeRune_ascii c rest Hc).
  change 92%N with (N_of_ascii backslash). rewrite N_of_ascii_eqb.
  fold (IsSpace c). rewrite (EncodeRune_ascii c Hc). cbn [Nat.sub].
  destruct (Ascii.eqb c backslash).
  - destruct (byte_before line i); cbn [obind]; try reflexivity. apply IH, Hrest.
  - destruct (IsSpace c); [destruct ps|].
    + destruct (byte_before line i); cbn [obind]; try reflexivity.
      apply IH, Hrest.
    + apply IH, Hrest.
    + apply IH, Hrest.
Qed.

Lemma collapseWhitespace_on_ascii (line : string) :
  is_ascii line = true ->
  collapseWhitespace line = collapseWhitespace_ascii line.
Proof.
  intros H. unfold collapseWhitespace, collapseWhitespace_ascii.
  apply collapseWhitespace_loop_ascii. exact H.
Qed.

Lemma collapseWhitespace_no_backslash (line : string) :
  is_ascii line = true ->
  has_byte backslash line = false ->
  exists text,
    collapseWhitespace line = Ok text
    /\ single_spaced false text = true
    /\ visible text = visible line.
Proof.
  intros Hascii Hb. rewrite (collapseWhitespace_on_ascii line Hascii).
  destruct (collapseWhitespace_total line) as [text Ht].
  { destruct line as [|c line]; [reflexivity|].
    apply has_byte_cons_false in Hb as [Hc _]. apply Ascii.eqb_neq in Hc.
    cbn [HasPrefix]. rewrite Ascii.eqb_sym, Hc. reflexivity. }
  exists text. split; [exact Ht|]. split.
  - apply (collapseWhitespace_loop_single_spaced line line Hb Hb 0 EmptyString
             false text); [reflexivity | reflexivity | exact Ht].
  - apply collapseWhitespace_loop_visible in Ht. exact Ht.
Qed.

End AsciiText.

(** X13: a line of ASCII bytes that holds neither white space nor a
    backslash comes back from [collapseWhitespace] as it is. *)
Theorem collapseWhitespace_plain (line : string) :
  is_ascii line = true ->
  Forall (fun c => IsSpace c = false /\ c <> backslash)
    (list_ascii_of_string line) ->
  collapseWhitespace line = Ok line.
Proof.
  intros Hascii H. rewrite (collapseWhitespace_on_ascii line Hascii).
  unfold collapseWhitespace_ascii.
  rewrite (collapseWhitespace_loop_plain line line H). reflexivity.
Qed.

Lemma collapseWhitespace_plain_witness :
  collapseWhitespace "/home/martin/key.pem" = Ok "/home/martin/key.pem".
Proof.
  apply collapseWhitespace_plain; [reflexivity|].
  repeat constructor; discriminate.
Defined.

(** X14: on a line of ASCII bytes without backslashes [collapseWhitespace]
    returns, and what it returns holds no white space byte other than the
    space and no two spaces in a row, and has the bytes of the line other
    than white space in their order. *)
Theorem collapseWhitespace_single_spaced (line : string) :
  is_ascii line = true ->
  has_byte backslash line = false ->
  exists text,
    collapseWhitespace line = Ok text
    /\ single_spaced false text = true
    /\ visible text = visible line.
Proof. exact (collapseWhitespace_no_backslash line). Qed.

Lemma collapseWhitespace_single_spaced_witness :
  exists text,
    collapseWhitespace "key-file  	 /home/martin/key.pem" = Ok text
    /\ single_spaced false text = true
    /\ visible text = visible "key-file  	 /home/martin/key.pem".
Proof.
  apply collapseWhitespace_single_spaced; reflexivity.
Defined.

(** ** Splitting and joining *)

Section SplitJoin.

Variable sep : ascii.

Lemma split_go_nonempty (cur s : string) : split_go sep cur s <> [].
Proof.
  revert cur. induction s as [|c s IH]; intros cur; cbn [split_go];
    [discriminate|].
  destruct (Ascii.eqb c sep); [discriminate | apply IH].
Qed.

Lemma Join_cons (x : string) (rest : list string) (sp : string) :
  rest <> [] -> Join (x :: rest) sp = x +:+ sp +:+ Join rest sp.
Proof. destruct rest; [contradiction | reflexivity]. Qed.

Lemma Join_split_go (cur s : string) :
  Join (split_go sep cur s) (String sep EmptyString) = cur +:+ s.
Proof.
  revert cur. induction s as [|c s IH]; intros cur; cbn [split_go].
  - symmetry. apply append_nil_r.
  - destruct (Ascii.eqb_spec c sep) as [->|_].
    + rewrite Join_cons by apply split_go_nonempty. rewrite IH. reflexivity.
    + rewrite IH, append_assoc. reflexivity.
Qed.

(** Joining what was split gives the string back. *)
Lemma Join_Split (s : string) : Join (Split s sep) (String sep EmptyString) = s.
Proof. unfold Split. apply Join_split_go. Qed.

Lemma split_go_sep_free (cur s : string) :
  has_byte sep s = false -> split_go sep cur s = [cur +:+ s].
Proof.
  revert cur. induction s as [|c s IH]; intros cur H; cbn [split_go].
  - rewrite append_nil_r. reflexivity.
  - apply has_byte_cons_false in H as [Hc Hs]. apply Ascii.eqb_neq in Hc.
    rewrite Hc, (IH _ Hs), append_assoc. reflexivity.
Qed.

Lemma split_go_first_field (cur a b : string) :
  has_byte sep a = false ->
  split_go sep cur (a +:+ String sep b)
  = (cur +:+ a) :: split_go sep EmptyString b.
Proof.
  revert cur. induction a as [|c a IH]; intros cur H; cbn [String.append split_go].
  - rewrite Ascii.eqb_refl, append_nil_r. reflexivity.
  - apply has_byte_cons_false in H as [Hc Ha]. apply Ascii.eqb_neq in Hc.
    rewrite Hc, (IH _ Ha), append_assoc. reflexivity.
Qed.

(** Splitting what was joined from fields without the separator gives the
    fields back. *)
Lemma Split_Join (fields : list string) :
  fields <> [] ->
  Forall (fun x => has_byte sep x = false) fields ->
  Split (Join fields (String sep EmptyString)) sep = fields.
Proof.
  intros Hne Hall. induction Hall as [|x rest Hx Hall IH]; [contradiction|].
  destruct rest as [|y rest].
  - cbn [Join]. unfold Split. rewrite (split_go_sep_free _ _ Hx). reflexivity.
  - rewrite Join_cons by discriminate. unfold Split in *.
    cbn [String.append]. rewrite (split_go_first_field _ _ _ Hx).
    rewrite IH by discriminate. reflexivity.
Qed.

Lemma split_go_fields_sep_free (cur s : string) :
  has_byte sep cur = false ->
  Forall (fun x => has_byte sep x = false) (split_go sep cur s).
Proof.
  revert cur. induction s as [|c s IH]; intros cur Hcur; cbn [split_go].
  - repeat constructor. exact Hcur.
  - destruct (Ascii.eqb_spec c sep) as [->|Hc].
    + constructor; [exact Hcur | apply IH; reflexivity].
    + apply IH. rewrite has_byte_append, Hcur. cbn [has_byte orb].
      apply Ascii.eqb_neq in Hc. rewrite Hc. reflexivity.
Qed.

Lemma Join_app (a b : list string) (sp : string) :
  a <> [] -> b <> [] ->
  Join (a ++ b) sp = Join a sp +:+ sp +:+ Join b sp.
Proof.
  intros Ha Hb. induction a as [|x a IH]; [contradiction|].
  destruct a as [|y a].
  - cbn [app]. rewrite Join_cons by exact Hb. reflexivity.
  - change ((x :: y :: a) ++ b) with (x :: ((y :: a) ++ b)).
    rewrite Join_cons by discriminate. rewrite IH by discriminate.
    rewrite (Join_cons x (y :: a)) by discriminate.
    rewrite !append_assoc. reflexivity.
Qed.

End SplitJoin.

(** X15: for a logical line made of a key without spaces, one space and
    the rest, [Parse] takes the key as the field's key, and joining the
    remaining tokens with spaces, as the handler for [KeyFile] does, gives
    back the rest of the line byte for byte. *)
Theorem KeyFile_is_rest_of_line (key rest : string) :
  has_byte space key = false ->
  hd EmptyString (Split (key +:+ " " +:+ rest) space) = key
  /\ Main.KeyFile_value (tl (Split (key +:+ " " +:+ rest) space)) = rest.
Proof.
  intros Hkey. unfold Split, Main.KeyFile_value.
  change (key +:+ " " +:+ rest) with (key +:+ String space rest).
  rewrite (split_go_first_field space EmptyString key rest Hkey).
  cbn [hd tl String.append]. split; [reflexivity|].
  exact (Join_Split space rest).
Qed.

Lemma KeyFile_is_rest_of_line_witness :
  hd EmptyString (Split "key-file /home/my keys/key.pem" space) = "key-file"
  /\ Main.KeyFile_value (tl (Split "key-file /home/my keys/key.pem" space))
     = "/home/my keys/key.pem".
Proof.
  apply (KeyFile_is_rest_of_line "key-file" "/home/my keys/key.pem").
  reflexivity.
Defined.

(** ** The handler for [Records] *)

Section RecordsHandler.

Lemma ends_with_sep_free (c : ascii) (s : string) :
  has_byte c s = false -> ends_with c s = false.
Proof.
  induction s as [|x s IH]; [reflexivity|]. intros H.
  apply has_byte_cons_false in H as [Hx Hs]. apply Ascii.eqb_neq in Hx.
  cbn [ends_with]. destruct s; [exact Hx | exact (IH Hs)].
Qed.

Lemma ends_with_append (c : ascii) (a b : string) :
  b <> EmptyString -> ends_with c (a +:+ b) = ends_with c b.
Proof.
  intros Hb. induction a as [|x a IH]; [reflexivity|].
  cbn [String.append ends_with]. rewrite IH.
  destruct (a +:+ b) eqn:E; [|reflexivity].
  destruct a; [cbn in E; contradiction | discriminate E].
Qed.

Lemma TrimRight_keep (c : ascii) (s : string) :
  ends_with c s = false -> TrimRight s (String c EmptyString) = s.
Proof.
  unfold TrimRight. induction s as [|x s IH]; [reflexivity|].
  cbn [ends_with dropWhileEnd]. destruct s as [|y s].
  - intros Hx. cbn [dropWhileEnd has_byte]. rewrite Ascii.eqb_sym, Hx.
    reflexivity.
  - intros H. rewrite (IH H). reflexivity.
Qed.

Lemma TrimRight_snoc (c : ascii) (s : string) :
  TrimRight (s +:+ String c EmptyString) (String c EmptyString)
  = TrimRight s (String c EmptyString).
Proof.
  unfold TrimRight. induction s as [|x s IH].
  - cbn [String.append dropWhileEnd has_byte]. rewrite Ascii.eqb_refl.
    reflexivity.
  - cbn [String.append dropWhileEnd]. rewrite IH. reflexivity.
Qed.

Lemma Records_handler_token (labels : list string) (l1 l2 : string)
    (v : list string) (Records : gmap string (list string)) :
  Forall (fun x => has_byte "." x = false) (labels ++ [l1; l2]) ->
  l2 <> EmptyString ->
  Main.Records_handler (Join (labels ++ [l1; l2]) "." :: v) Records
  = Main.Records_handler v
      (<[l1 +:+ "." +:+ l2
         := default [] (Records !! (l1 +:+ "." +:+ l2))
            ++ [Join (labels ++ [l1; l2]) "." +:+ "."]]> Records).
Proof.
  intros Hall Hl2. cbn [Main.Records_handler].
  assert (Hend : ends_with "." (Join (labels ++ [l1; l2]) ".") = false).
  { change (labels ++ [l1; l2]) with (labels ++ [l1] ++ [l2]).
    rewrite app_assoc, Join_app; [|destruct labels; discriminate | discriminate].
    cbn [Join]. rewrite ends_with_append.
    - cbn [String.append ends_with]. destruct l2 as [|c l2]; [contradiction|].
      apply ends_with_sep_free.
      apply Forall_app in Hall as [_ Hall].
      inversion Hall as [|? ? _ Hall']; subst.
      inversion Hall' as [|? ? H2 _]; subst. exact H2.
    - discriminate. }
  rewrite (TrimRight_keep "." _ Hend).
  rewrite (Split_Join "." (labels ++ [l1; l2]));
    [| destruct labels; discriminate | exact Hall].
  rewrite length_app. cbn [length].
  replace (length labels + 2 - 2) with (length labels) by lia.
  destruct (Nat.ltb_spec (length labels + 2) 2) as [Hlt|_]; [lia|].
  rewrite drop_app_length. reflexivity.
Qed.

Lemma Records_handler_app_aux (v1 v2 : list string)
    (Records : gmap string (list string)) :
  Main.Records_handler (v1 ++ v2) Records
  = match Main.Records_handler v1 Records with
    | (Records1, Ok _) => Main.Records_handler v2 Records1
    | (Records1, r) => (Records1, r)
    end.
Proof.
  revert Records. induction v1 as [|r v1 IH]; intros Records; [reflexivity|].
  change ((r :: v1) ++ v2) with (r :: (v1 ++ v2)).
  cbn [Main.Records_handler].
  destruct (Nat.ltb _ 2); [reflexivity | apply IH].
Qed.

End RecordsHandler.

(** X16: a token made of labels joined by dots, with no empty last label,
    is stored as its own text followed by one dot, in the list of the domain
    made of its last two labels, after whatever that list held. *)
Theorem Records_handler_stores_fqdn (labels : list string) (l1 l2 : string)
    (v : list string) (Records : gmap string (list string)) :
  Forall (fun x => has_byte "." x = false) (labels ++ [l1; l2]) ->
  l2 <> EmptyString ->
  Main.Records_handler (Join (labels ++ [l1; l2]) "." :: v) Records
  = Main.Records_handler v
      (<[l1 +:+ "." +:+ l2
         := default [] (Records !! (l1 +:+ "." +:+ l2))
            ++ [Join (labels ++ [l1; l2]) "." +:+ "."]]> Records).
Proof. apply Records_handler_token. Qed.

Lemma Records_handler_stores_fqdn_witness :
  Main.Records_handler ["www.example.com"] {[ "example.com" := ["example.com."] ]}
  = ({[ "example.com" := ["example.com."; "www.example.com."] ]}, Ok tt).
Proof.
  refine (eq_trans
    (Records_handler_stores_fqdn ["www"] "example" "com" []
       {[ "example.com" := ["example.com."] ]} _ _) _).
  - repeat constructor.
  - discriminate.
  - vm_compute. reflexivity.
Defined.

(** X17: dots at the end of a token do not count: the token with one more
    dot at its end is handled as the token itself. *)
Theorem Records_handler_trailing_dot (r : string) (v : list string)
    (Records : gmap string (list string)) :
  Main.Records_handler ((r +:+ ".") :: v) Records
  = Main.Records_handler (r :: v) Records.
Proof.
  cbn [Main.Records_handler]. rewrite (TrimRight_snoc "." r). reflexivity.
Qed.

(** X18: a token that holds no dot once the dots at its end are removed is
    refused with "doesn't look like a valid FQDN"; the map is left as it is
    and the tokens after it are not read. *)
Theorem Records_handler_no_dot (r : string) (v : list string)
    (Records : gmap string (list string)) :
  has_byte "." (TrimRight r ".") = false ->
  Main.Records_handler (r :: v) Records
  = (Records, Err ("record " +:+ TrimRight r "."
                   +:+ " doesn't look like a valid FQDN")).
Proof.
  intros H. cbn [Main.Records_handler]. unfold Split.
  rewrite (split_go_sep_free "." EmptyString _ H). reflexivity.
Qed.

Lemma Records_handler_no_dot_witness :
  Main.Records_handler ["localhost."; "www.example.com"] ∅
  = (∅, Err "record localhost doesn't look like a valid FQDN").
Proof.
  apply (Records_handler_no_dot "localhost." ["www.example.com"] ∅).
  reflexivity.
Defined.

(** X19: the handler takes the tokens in order and stops at the first one
    it refuses; what the tokens before it added stays in the map. *)
Theorem Records_handler_app (v1 v2 : list string)
    (Records : gmap string (list string)) :
  Main.Records_handler (v1 ++ v2) Records
  = match Main.Records_handler v1 Records with
    | (Records1, Ok _) => Main.Records_handler v2 Records1
    | (Records1, r) => (Records1, r)
    end.
Proof. apply Records_handler_app_aux. Qed.

(** X20: the name a configuration gives to an entry and the name
    [getDomain] computes for it agree. For the entry [e] of the domain
    [l1.l2], the token to write is the domain itself when the entry's name is
    [@] and the entry's name, a dot and the domain otherwise; the handler
    stores for it, under the domain, exactly the [FQDN] that [getDomain]
    gives [e]. *)
Theorem Records_handler_agrees_with_getDomain (e : Main.Info) (l1 l2 : string)
    (Records : gmap string (list string)) :
  has_byte "." l1 = false -> has_byte "." l2 = false -> l2 <> EmptyString ->
  Main.Records_handler
    [if String.eqb (Main.Name e) "@" then l1 +:+ "." +:+ l2
     else Main.Name e +:+ "." +:+ l1 +:+ "." +:+ l2] Records
  = (<[l1 +:+ "." +:+ l2
       := default [] (Records !! (l1 +:+ "." +:+ l2))
          ++ [Main.FQDN (Main.getDomain_FQDN (l1 +:+ "." +:+ l2) e)]]> Records,
     Ok tt).
Proof.
  intros H1 H2 Hne. unfold Main.getDomain_FQDN.
  destruct (String.eqb (Main.Name e) "@").
  - refine (eq_trans (Records_handler_token [] l1 l2 [] Records _ Hne) _);
      [repeat constructor; assumption | reflexivity].
  - pose proof (Records_handler_token (Split (Main.Name e) ".") l1 l2 []
                  Records) as H.
    rewrite Join_app in H; [|apply split_go_nonempty | discriminate].
    rewrite (Join_Split "." (Main.Name e)) in H. cbn [Join] in H.
    rewrite H; [|apply Forall_app; split;
                   [apply split_go_fields_sep_free; reflexivity
                   | repeat constructor; assumption]
               | exact Hne].
    cbn [Main.Records_handler Main.set_FQDN Main.FQDN].
    rewrite !append_assoc. reflexivity.
Qed.

Lemma Records_handler_agrees_with_getDomain_witness :
  Main.Records_handler ["www.example.com"] ∅
  = ({[ "example.com" := ["www.example.com."] ]}, Ok tt).
Proof.
  refine (eq_trans
    (Records_handler_agrees_with_getDomain
       {| Main.Name := "www"; Main.Expire := 300; Main.Type_ := "A";
          Main.Content := "192.0.2.1"; Main.FQDN := EmptyString |}
       "example" "com" ∅ _ _ _) _).
  - reflexivity.
  - reflexivity.
  - discriminate.
  - vm_compute. reflexivity.
Defined.

(** ** [updateDomain] *)

Section UpdateDomain.

Import Main.

Variable ip : ipT.

Lemma updateDomain_entry_cases (record : string) (e : Info) (f : nat)
    (log : list string) :
  exists log',
    (updateDomain_entry record ip e f log
     = (log', Ok (updated_once record ip e, (if matches record e then 1 else 0) + f))
     /\ (matches record e = true -> address_for ip e <> EmptyString))
    \/ (exists err,
          updateDomain_entry record ip e f log = (log', Err err)
          /\ matches record e = true /\ address_for ip e = EmptyString).
Proof.
  unfold updateDomain_entry, updated_once, matches, is_address, address_for.
  destruct (String.eqb (Type_ e) "A") eqn:HA;
    destruct (String.eqb (Type_ e) "AAAA") eqn:HAAAA;
    destruct (String.eqb record (FQDN e)) eqn:HF;
    cbn [negb andb orb];
    try (eexists; left; split; [reflexivity | discriminate]).
  all: destruct (3600 <? Expire e)%Z.
  all: try (destruct (String.eqb_spec (IPv4 ip) EmptyString) as [E4|E4];
            eexists;
            [right; eexists; split; [reflexivity | split; [reflexivity | exact E4]]
            |left; split; [reflexivity | intros _; exact E4]]).
  all: destruct (String.eqb_spec (IPv6 ip) EmptyString) as [E6|E6];
       eexists;
       [right; eexists; split; [reflexivity | split; [reflexivity | exact E6]]
       |left; split; [reflexivity | intros _; exact E6]].
Qed.

Lemma updateDomain_inner_cases (record : string) (info : list Info) :
  forall (f : nat) (log : list string),
  exists log',
    (updateDomain_inner record ip info f log
     = (log', Ok (map (updated_once record ip) info, count_matching record info + f))
     /\ Forall (fun e => matches record e = true ->
                         address_for ip e <> EmptyString) info)
    \/ (exists err,
          updateDomain_inner record ip info f log = (log', Err err)
          /\ Exists (fun e => matches record e = true
                              /\ address_for ip e = EmptyString) info).
Proof.
  induction info as [|e info IH]; intros f log.
  - exists log. left. split; [reflexivity | constructor].
  - cbn [updateDomain_inner].
    destruct (updateDomain_entry_cases record e f log)
      as [log1 [[-> He] | (err & -> & Hm & Ha)]].
    + destruct (IH ((if matches record e then 1 else 0) + f) log1)
        as [log2 [[-> Hall] | (err & -> & Hex)]]; exists log2.
      * left. split; [|constructor; assumption].
        cbn [map count_matching]. rewrite Nat.add_assoc.
        rewrite (Nat.add_comm (count_matching record info)). reflexivity.
      * right. exists err. split; [reflexivity | right; exact Hex].
    + exists log1. right. exists err. split; [reflexivity | left; auto].
Qed.

Lemma matches_updated1 (r record : string) (e : Info) :
  matches r (updated_once record ip e) = matches r e.
Proof. unfold updated_once. destruct (matches record e); reflexivity. Qed.

Lemma address_for_updated1 (record : string) (e : Info) :
  address_for ip (updated_once record ip e) = address_for ip e.
Proof. unfold updated_once. destruct (matches record e); reflexivity. Qed.

Lemma touched_updated1 (records : list string) (record : string) (e : Info) :
  touched records (updated_once record ip e) = touched records e.
Proof.
  unfold touched. induction records as [|r records IH]; [reflexivity|].
  cbn [existsb]. rewrite matches_updated1, IH. reflexivity.
Qed.

Lemma updated_cons (records : list string) (record : string) (e : Info) :
  updated records ip (updated_once record ip e) = updated (record :: records) ip e.
Proof.
  unfold updated. rewrite touched_updated1, address_for_updated1.
  unfold touched at 2. cbn [existsb]. fold (touched records e).
  unfold updated_once.
  destruct (matches record e), (touched records e); reflexivity.
Qed.

Lemma count_matching_updated1 (r record : string) (info : list Info) :
  count_matching r (map (updated_once record ip) info) = count_matching r info.
Proof.
  induction info as [|e info IH]; [reflexivity|].
  cbn [map count_matching]. rewrite matches_updated1, IH. reflexivity.
Qed.

Lemma matching_pairs_updated1 (records : list string) (record : string)
    (info : list Info) :
  matching_pairs records (map (updated_once record ip) info)
  = matching_pairs records info.
Proof.
  induction records as [|r records IH]; [reflexivity|].
  cbn [matching_pairs]. rewrite count_matching_updated1, IH. reflexivity.
Qed.

Lemma updateDomain_records_cases (records : list string) :
  forall (info : list Info) (f : nat) (log : list string),
  exists log',
    (updateDomain_records records ip info f log
     = (log', Ok (map (updated records ip) info,
                  matching_pairs records info + f))
     /\ Forall (fun e => touched records e = true ->
                         address_for ip e <> EmptyString) info)
    \/ (exists err,
          updateDomain_records records ip info f log = (log', Err err)
          /\ Exists (fun e => touched records e = true
                              /\ address_for ip e = EmptyString) info).
Proof.
  induction records as [|record records IH]; intros info f log.
  - exists log. left. split.
    + cbn [updateDomain_records matching_pairs]. f_equal. f_equal. f_equal.
      induction info as [|e info IHi]; [reflexivity|].
      cbn [map]. rewrite <- IHi. reflexivity.
    + apply List.Forall_forall. intros e _ H. discriminate H.
  - cbn [updateDomain_records].
    destruct (updateDomain_inner_cases record info f log)
      as [log1 [[-> Hall1] | (err & -> & Hex)]].
    + destruct (IH (map (updated_once record ip) info)
                  (count_matching record info + f) log1)
        as [log2 [[-> Hall2] | (err & -> & Hex)]]; exists log2.
      * left. split.
        -- rewrite map_map, matching_pairs_updated1. cbn [matching_pairs].
           rewrite Nat.add_assoc,
             (Nat.add_comm (matching_pairs records info)).
           f_equal. f_equal. f_equal.
           apply map_ext. intros e. apply updated_cons.
        -- rewrite List.Forall_forall in Hall1, Hall2 |- *. intros e Hin Ht.
           unfold touched in Ht. cbn [existsb] in Ht.
           apply orb_prop in Ht as [Hm|Ht]; [exact (Hall1 e Hin Hm)|].
           rewrite <- (address_for_updated1 record e).
           apply Hall2; [apply in_map; exact Hin|].
           rewrite touched_updated1. exact Ht.
      * right. exists err. split; [reflexivity|].
        apply List.Exists_exists in Hex as (e' & Hin & Ht & Ha).
        apply in_map_iff in Hin as (e & <- & Hin).
        apply List.Exists_exists. exists e. split; [exact Hin|].
        rewrite touched_updated1 in Ht. rewrite address_for_updated1 in Ha.
        split; [|exact Ha]. unfold touched. cbn [existsb].
        fold (touched records e). rewrite Ht. apply orb_true_r.
    + exists log1. right. exists err. split; [reflexivity|].
      apply List.Exists_exists in Hex as (e & Hin & Hm & Ha).
      apply List.Exists_exists. exists e. split; [exact Hin|].
      split; [|exact Ha]. unfold touched. cbn [existsb]. rewrite Hm.
      reflexivity.
Qed.

End UpdateDomain.

(** X21: when every entry that one of the records matches has an address of
    its family ([IPv4] for [A], [IPv6] for [AAAA]), [updateDomain] either
    refuses with "no A or AAAA record found" (fewer matching pairs of a
    record and an entry than records) or sends the entries off with the
    content of every matched entry replaced by that address and every other
    entry as it was. *)
Theorem updateDomain_updates_matched
    (sendUpdate : string -> list Main.Info -> outcome unit)
    (domain : string) (records : list string) (info : list Main.Info)
    (ip : Main.ipT) :
  Forall (fun e => Main.touched records e = true ->
                   Main.address_for ip e <> EmptyString) info ->
  exists log,
    Main.updateDomain sendUpdate domain records info ip
    = (log,
       if Nat.ltb (Main.matching_pairs records info) (length records)
       then Err ("no A or AAAA record found for " +:+ Main.fmt_strings records
                 +:+ "; did you set them in TransIP?")
       else sendUpdate domain (map (Main.updated records ip) info)).
Proof.
  intros Hall. unfold Main.updateDomain.
  destruct (updateDomain_records_cases ip records info 0 [])
    as [log [[-> _] | (err & _ & Hex)]].
  - exists log. rewrite Nat.add_0_r.
    destruct (Nat.ltb _ _); reflexivity.
  - exfalso. apply List.Exists_exists in Hex as (e & Hin & Ht & Ha).
    rewrite List.Forall_forall in Hall. exact (Hall e Hin Ht Ha).
Qed.

Lemma updateDomain_updates_matched_witness :
  exists log,
    Main.updateDomain (fun _ _ => Ok tt) "example.com"
      ["example.com."; "www.example.com."]
      (Main.getDomain_FQDNs "example.com"
         [ {| Main.Name := "@"; Main.Expire := 86400; Main.Type_ := "A";
              Main.Content := "192.0.2.1"; Main.FQDN := EmptyString |};
           {| Main.Name := "www"; Main.Expire := 300; Main.Type_ := "AAAA";
              Main.Content := "2001:db8::1"; Main.FQDN := EmptyString |};
           {| Main.Name := "@"; Main.Expire := 300; Main.Type_ := "MX";
              Main.Content := "10 mail"; Main.FQDN := EmptyString |} ])
      {| Main.IPv6 := "2001:db8::2"; Main.IPv4 := "192.0.2.2" |}
    = (log, Ok tt).
Proof.
  apply (updateDomain_updates_matched (fun _ _ => Ok tt) "example.com"
           ["example.com."; "www.example.com."]).
  repeat constructor; discriminate.
Defined.

(** X22: when a record matches an entry whose family has no address,
    [updateDomain] returns an error and sends nothing. *)
Theorem updateDomain_missing_address
    (sendUpdate : string -> list Main.Info -> outcome unit)
    (domain : string) (records : list string) (info : list Main.Info)
    (ip : Main.ipT) :
  Exists (fun e => Main.touched records e = true
                   /\ Main.address_for ip e = EmptyString) info ->
  exists log err,
    Main.updateDomain sendUpdate domain records info ip = (log, Err err)
    /\ forall sendUpdate',
         Main.updateDomain sendUpdate' domain records info ip = (log, Err err).
Proof.
  intros Hex. unfold Main.updateDomain.
  destruct (updateDomain_records_cases ip records info 0 [])
    as [log [[_ Hall] | (err & -> & _)]].
  - exfalso. apply List.Exists_exists in Hex as (e & Hin & Ht & Ha).
    rewrite List.Forall_forall in Hall. exact (Hall e Hin Ht Ha).
  - exists log, err. split; [reflexivity | intros _; reflexivity].
Qed.

Lemma updateDomain_missing_address_witness :
  exists log err,
    Main.updateDomain (fun _ _ => Ok tt) "example.com" ["www.example.com."]
      [ {| Main.Name := "www"; Main.Expire := 300; Main.Type_ := "AAAA";
           Main.Content := "2001:db8::1"; Main.FQDN := "www.example.com." |} ]
      {| Main.IPv6 := EmptyString; Main.IPv4 := "192.0.2.2" |}
    = (log, Err err)
    /\ forall sendUpdate',
         Main.updateDomain sendUpdate' "example.com" ["www.example.com."]
           [ {| Main.Name := "www"; Main.Expire := 300; Main.Type_ := "AAAA";
                Main.Content := "2001:db8::1"; Main.FQDN := "www.example.com." |} ]
           {| Main.IPv6 := EmptyString; Main.IPv4 := "192.0.2.2" |}
         = (log, Err err).
Proof.
  apply updateDomain_missing_address.
  left. split; reflexivity.
Defined.

Lemma count_matching_untouched (record : string) (info : list Main.Info) :
  Forall (fun e => Main.matches record e = false) info ->
  Main.count_matching record info = 0.
Proof.
  induction 1 as [|e info He _ IH]; [reflexivity|].
  cbn [Main.count_matching]. rewrite He. exact IH.
Qed.

Lemma matching_pairs_untouched (records : list string) (info : list Main.Info) :
  Forall (fun e => Main.touched records e = false) info ->
  Main.matching_pairs records info = 0.
Proof.
  induction records as [|record records IH]; intros Hall; [reflexivity|].
  cbn [Main.matching_pairs].
  rewrite count_matching_untouched, IH; [reflexivity | |].
  - eapply Forall_impl; [exact Hall|]. intros e He.
    unfold Main.touched in He |- *. cbn [existsb] in He.
    apply orb_false_elim in He as [_ He]. exact He.
  - eapply Forall_impl; [exact Hall|]. intros e He.
    unfold Main.touched in He. cbn [existsb] in He.
    apply orb_false_elim in He as [He _]. exact He.
Qed.

(** X23: when no record is the name of an entry of type [A] or [AAAA] and
    there is at least one record, [updateDomain] refuses with "no A or AAAA
    record found", listing the records, and sends nothing. *)
Theorem updateDomain_no_match
    (sendUpdate : string -> list Main.Info -> outcome unit)
    (domain : string) (records : list string) (info : list Main.Info)
    (ip : Main.ipT) :
  records <> [] ->
  Forall (fun e => Main.touched records e = false) info ->
  exists log,
    Main.updateDomain sendUpdate domain records info ip
    = (log,
       Err ("no A or AAAA record found for " +:+ Main.fmt_strings records
            +:+ "; did you set them in TransIP?")).
Proof.
  intros Hne Hall. unfold Main.updateDomain.
  destruct (updateDomain_records_cases ip records info 0 [])
    as [log [[-> _] | (err & _ & Hex)]].
  - exists log. rewrite (matching_pairs_untouched records info Hall).
    destruct records; [contradiction | reflexivity].
  - exfalso. apply List.Exists_exists in Hex as (e & Hin & Ht & _).
    rewrite List.Forall_forall in Hall. rewrite (Hall e Hin) in Ht.
    discriminate Ht.
Qed.

Lemma updateDomain_no_match_witness :
  exists log,
    Main.updateDomain (fun _ _ => Ok tt) "example.com" ["www.example.com."]
      [ {| Main.Name := "www"; Main.Expire := 300; Main.Type_ := "CNAME";
           Main.Content := "example.com."; Main.FQDN := "www.example.com." |} ]
      {| Main.IPv6 := "2001:db8::2"; Main.IPv4 := "192.0.2.2" |}
    = (log,
       Err "no A or AAAA record found for [www.example.com.]; did you set them in TransIP?").
Proof.
  apply (updateDomain_no_match (fun _ _ => Ok tt) "example.com"
           ["www.example.com."]).
  - discriminate.
  - repeat constructor.
Defined.

(** X24: the two loops of [updateDomain] change nothing but the content of
    entries of type [A] or [AAAA]: the entries keep their number and order,
    every entry keeps its name, expiry, type and FQDN, and an entry of
    another type is left as it is. *)
Theorem updateDomain_records_only_content (records : list string)
    (ip : Main.ipT) (info info' : list Main.Info) (f f' : nat)
    (log log' : list string) :
  Main.updateDomain_records records ip info f log = (log', Ok (info', f')) ->
  Forall2 (fun e e' =>
             Main.Name e' = Main.Name e /\ Main.Expire e' = Main.Expire e
             /\ Main.Type_ e' = Main.Type_ e /\ Main.FQDN e' = Main.FQDN e
             /\ (Main.is_address e = false -> e' = e)) info info'.
Proof.
  intros H.
  destruct (updateDomain_records_cases ip records info f log)
    as [log1 [[H1 _] | (err & H1 & _)]]; rewrite H1 in H; [|discriminate H].
  injection H as _ <- _. clear H1.
  induction info as [|e info IH]; cbn [map]; constructor; [|exact IH].
  unfold Main.updated.
  destruct (Main.touched records e) eqn:Ht; [|repeat split; reflexivity].
  repeat split; try reflexivity.
  intros Ha. exfalso. unfold Main.touched in Ht.
  apply existsb_exists in Ht as (r & _ & Hm).
  unfold Main.matches in Hm. rewrite Ha in Hm. discriminate Hm.
Qed.

Lemma updateDomain_records_only_content_witness :
  Forall2 (fun e e' =>
             Main.Name e' = Main.Name e /\ Main.Expire e' = Main.Expire e
             /\ Main.Type_ e' = Main.Type_ e /\ Main.FQDN e' = Main.FQDN e
             /\ (Main.is_address e = false -> e' = e))
    [ {| Main.Name := "@"; Main.Expire := 300; Main.Type_ := "A";
         Main.Content := "192.0.2.1"; Main.FQDN := "example.com." |};
      {| Main.Name := "@"; Main.Expire := 300; Main.Type_ := "MX";
         Main.Content := "10 mail"; Main.FQDN := "example.com." |} ]
    [ {| Main.Name := "@"; Main.Expire := 300; Main.Type_ := "A";
         Main.Content := "192.0.2.2"; Main.FQDN := "example.com." |};
      {| Main.Name := "@"; Main.Expire := 300; Main.Type_ := "MX";
         Main.Content := "10 mail"; Main.FQDN := "example.com." |} ].
Proof.
  apply (updateDomain_records_only_content ["example.com."]
           {| Main.IPv6 := EmptyString; Main.IPv4 := "192.0.2.2" |}
           _ _ 0 1 [] []).
  vm_compute. reflexivity.
Defined.

(** ** Continuation lines in files without [source] directives *)

Lemma readFile_loop_counts_lines
    (sourced : string -> outcome (list LogicalLine)) (input : list string) :
  Forall (fun raw => source_directive raw = None) input ->
  forall (lines lines' : list LogicalLine) (no i' no' : nat),
    readFile_loop sourced input (lines, length lines, no) = Ok (lines', i', no') ->
    i' = length lines'.
Proof.
  induction 1 as [|raw input Hsrc Hall IH]; intros lines lines' no i' no' H.
  - injection H as <- <- <-. reflexivity.
  - cbn [readFile_loop] in H.
    destruct (readFile_step sourced raw (lines, length lines, no))
      as [[[l1 i1] n1]| | |] eqn:Hstep; try discriminate H.
    cbn [obind] in H.
    rewrite (readFile_step_counts_lines sourced raw lines l1 no i1 n1 Hsrc Hstep)
      in H.
    exact (IH _ _ _ _ _ H).
Qed.

(** X25: in a file without [source] directives an indented line is joined,
    after one space, to the logical line produced last, which keeps its
    number; the logical lines before it are untouched. *)
Theorem readFile_joins_continuation
    (sourced : string -> outcome (list LogicalLine)) (pre : list string)
    (raw text n t : string) (before : list LogicalLine) (i no : nat) :
  Forall (fun r => source_directive r = None) pre ->
  continuation raw = true ->
  logical_text (TrimSpace raw) = Ok text ->
  readFile_loop sourced pre ([], 0, 0) = Ok (before ++ [(n, t)], i, no) ->
  readFile_loop sourced (pre ++ [raw]) ([], 0, 0)
  = Ok (before ++ [(n, t +:+ " " +:+ text)], i, S no).
Proof.
  intros Hall Hc Ht Hpre.
  pose proof (readFile_loop_counts_lines sourced pre Hall [] _ 0 _ _ Hpre) as Hi.
  subst i.
  rewrite readFile_loop_app, Hpre. cbn [obind readFile_loop].
  rewrite (readFile_step_joins_last sourced raw text n t before no Hc Ht).
  reflexivity.
Qed.

Lemma readFile_joins_continuation_witness :
  readFile_loop (fun _ => Ok [])
    (["user martin"; "records example.com"] ++ ["   www.example.com"])
    ([], 0, 0)
  = Ok ([("1", "user martin")]
          ++ [("2", "records example.com" +:+ " " +:+ "www.example.com")],
        2, 3).
Proof.
  apply (readFile_joins_continuation (fun _ => Ok [])
           ["user martin"; "records example.com"] "   www.example.com"
           "www.example.com" "2" "records example.com"
           [("1", "user martin")] 2 2).
  - repeat constructor.
  - reflexivity.
  - vm_compute. reflexivity.
  - vm_compute. reflexivity.
Defined.

(** X28: a line of the file that is not indented, not skipped and no
    [source] directive, and whose text after comment removal is made of
    ASCII bytes other than the backslash, adds one logical line with the
    number of the physical line.  White space apart, its text has the bytes
    that the comment scan of the specification leaves of the trimmed line:
    a literal [#] for every escaped one, and nothing from the first
    unescaped [#] on. *)
Theorem readFile_step_escaped_hash
    (sourced : string -> outcome (list LogicalLine)) (raw : string)
    (lines : list LogicalLine) (i no : nat) :
  continuation raw = false ->
  skipped raw = false ->
  source_directive raw = None ->
  is_ascii (strip_comment_spec (TrimSpace raw)) = true ->
  has_byte backslash (strip_comment_spec (TrimSpace raw)) = false ->
  exists text,
    readFile_step sourced raw (lines, i, no)
    = Ok (lines ++ [(itoa (Z.of_nat (S no)), text)], S i, S no)
    /\ single_spaced false text = true
    /\ visible text = visible (strip_comment_spec (TrimSpace raw)).
Proof.
  intros Hc Hskip Hsrc Hascii Hb.
  destruct (collapseWhitespace_no_backslash _ Hascii Hb)
    as (text & Ht & Hsingle & Hvisible).
  assert (Hlogical : logical_text (TrimSpace raw) = Ok text).
  { unfold logical_text. rewrite removeComments_spec; [exact Ht|].
    unfold skipped in Hskip. apply orb_false_elim in Hskip as [_ Hh].
    exact Hh. }
  destruct (readFile_step_plain_file sourced raw lines i no)
    as (text' & Ht' & Hstep); [|exact Hsrc|exact Hskip|].
  { unfold readable. rewrite Hlogical. apply orb_true_r. }
  rewrite Hlogical in Ht'. injection Ht' as <-.
  exists text. split; [exact (Hstep Hc)|]. split; assumption.
Qed.

Lemma readFile_step_escaped_hash_witness :
  exists text,
    readFile_step (fun _ => Ok []) "a 1 \# x # y" ([("1", "user martin")], 1, 1)
    = Ok ([("1", "user martin")] ++ [(itoa (Z.of_nat 2), text)], 2, 2)
    /\ single_spaced false text = true
    /\ visible text = visible (strip_comment_spec (TrimSpace "a 1 \# x # y")).
Proof.
  apply (readFile_step_escaped_hash (fun _ => Ok []) "a 1 \# x # y"
           [("1", "user martin")] 1 1); vm_compute; reflexivity.
Defined.
